(** * Ogg Opus muxer (scripts/ogg-muxer.js): model and verification

    The muxer wraps Opus packets into Ogg pages.  This file embeds the
    class [OggOpusMuxer] as Rocq functions over an explicit muxer record,
    with the typed-array and [DataView] writes of the source spelled out
    (including their range checks), and proves the properties of the
    emitted pages.

    Modelling conventions.
    - A [Uint8Array] is a [list byte]; a write through a [DataView] or
      through an index wraps its argument modulo 256 (ToUint8) and throws
      [RangeError] outside the array.
    - JavaScript numbers that are lengths, indices or counters of pages and
      segments are [nat]; numbers that are written into fields or that the
      caller chooses freely (sample counts, sample rate, channel count,
      serial) are [Z].  Numbers with a fractional part are outside the
      model.  The granule position is the one Number that can leave the
      range in which Number arithmetic is exact (integers of magnitude up
      to 2^53): its addition is [JS.add], which rounds as the addition of
      doubles does.  Sums of magnitude 2^1024 and more, which that
      addition turns into Infinity, are outside the model.
    - A method that throws is modelled by [Throw]; the fields it had
      already assigned are not kept, since no caller of the class catches
      an exception and goes on using the muxer.
    - The 32-bit integer operators [<<], [>>>], [^], [&], [|] convert their
      operands with ToInt32 / ToUint32; the conversions are written out in
      module [JS]. *)

From Stdlib Require Import ZArith Lia List Bool Strings.Byte.
From stdpp Require Import base tactics option list numbers.
From Equations Require Import Equations.

Local Open Scope Z_scope.

(** ** JavaScript 32-bit integer operators *)

Module JS.

Definition toUint32 (z : Z) : Z := z mod 2 ^ 32.

Definition toInt32 (z : Z) : Z := (z + 2 ^ 31) mod 2 ^ 32 - 2 ^ 31.

(** [a << b] *)
Definition shl (a b : Z) : Z :=
  toInt32 (Z.shiftl (toInt32 a) (toUint32 b mod 32)).

(** [a >>> b] *)
Definition ushr (a b : Z) : Z :=
  Z.shiftr (toUint32 a) (toUint32 b mod 32).

(** [a ^ b] *)
Definition bxor (a b : Z) : Z := toInt32 (Z.lxor (toInt32 a) (toInt32 b)).

(** [a & b] *)
Definition band (a b : Z) : Z := toInt32 (Z.land (toInt32 a) (toInt32 b)).

(** [a | b] *)
Definition bor (a b : Z) : Z := toInt32 (Z.lor (toInt32 a) (toInt32 b)).

(** Truthiness of a number: everything but zero. *)
Definition truthy (a : Z) : bool := negb (a =? 0).

(** Rounding to the nearest of two neighbours, ties to the even one:
    [q] is the quotient, [r] the remainder and [half] half the divisor. *)
Definition roundHalfEven (q r half : Z) : Z :=
  if r <? half then q
  else if half <? r then q + 1
  else if Z.even q then q else q + 1.

(** The Number nearest to an integer: a double has 53 significant bits, so
    an integer below 2^53 in magnitude is a Number, and a larger one is
    rounded to a multiple of [2 ^ e] with a quotient of 53 bits. *)
Definition toNumber (z : Z) : Z :=
  let a := Z.abs z in
  if a <? 2 ^ 53 then z
  else
    let e := Z.log2 a - 52 in
    Z.sgn z * (roundHalfEven (a / 2 ^ e) (a mod 2 ^ e) (2 ^ (e - 1)) * 2 ^ e).

(** [a + b] on Numbers with integer values: the exact sum, rounded. *)
Definition add (a b : Z) : Z := toNumber (a + b).

End JS.

(** ** Bytes and typed arrays *)

(** ToUint8: the byte stored by a write of the number [z]. *)
Definition u8 (z : Z) : byte :=
  match Byte.of_N (Z.to_N (z mod 256)) with
  | Some b => b
  | None => x00
  end.

(** The number read back from an array cell. *)
Definition u8val (b : byte) : Z := Z.of_N (Byte.to_N b).

Abbreviation Uint8Array := (list byte).

(** [new Uint8Array(n)]: [n] zero bytes. *)
Definition newUint8Array (n : nat) : Uint8Array := replicate n x00.

(** ** Exceptions *)

Inductive error := RangeError.

Inductive result (A : Type) : Type :=
| Ok (a : A)
| Throw (e : error).
Arguments Ok {A} a.
Arguments Throw {A} e.

Definition bind {A B} (r : result A) (k : A -> result B) : result B :=
  match r with
  | Ok a => k a
  | Throw e => Throw e
  end.

Notation "'let*' x ':=' r 'in' k" := (bind r (fun x => k))
  (at level 10, x name, r at level 100, k at level 200).
Notation "'let*' ' p ':=' r 'in' k" := (bind r (fun x => let 'p := x in k))
  (at level 10, p pattern, r at level 100, k at level 200).

Definition succeeds {A} (r : result A) : bool :=
  match r with Ok _ => true | Throw _ => false end.

(** ** DataView and typed-array writes *)

(** The [n] little-endian bytes of [v] (already reduced to the field width
    by the caller). *)
Fixpoint le_bytes (n : nat) (v : Z) : list byte :=
  match n with
  | O => []
  | S n' => u8 v :: le_bytes n' (v / 256)
  end.

(** Reading a little-endian field back. *)
Fixpoint le_value (bs : list byte) : Z :=
  match bs with
  | [] => 0
  | b :: bs' => u8val b + 256 * le_value bs'
  end.

(** Overwrite the cells [offset .. offset + length src - 1]; the range check
    is the caller's. *)
Definition splice (offset : nat) (src : list byte) (buf : Uint8Array) : Uint8Array :=
  take offset buf ++ src ++ drop (offset + length src) buf.

(** A write of [width] bytes at [offset] that throws [RangeError] when it
    does not fit, as every [DataView] setter and [TypedArray.set] do. *)
Definition write (offset : nat) (src : list byte) (buf : Uint8Array) : result Uint8Array :=
  if (offset + length src <=? length buf)%nat
  then Ok (splice offset src buf)
  else Throw RangeError.

(** [view.setUint8(offset, v)] *)
Definition setUint8 (offset : nat) (v : Z) (buf : Uint8Array) : result Uint8Array :=
  if (offset <? length buf)%nat
  then Ok (<[offset := u8 v]> buf)
  else Throw RangeError.

(** [view.setUint16(offset, v, true)] *)
Definition setUint16 (offset : nat) (v : Z) (buf : Uint8Array) : result Uint8Array :=
  write offset (le_bytes 2 (v mod 2 ^ 16)) buf.

(** [view.setUint32(offset, v, true)] *)
Definition setUint32 (offset : nat) (v : Z) (buf : Uint8Array) : result Uint8Array :=
  write offset (le_bytes 4 (v mod 2 ^ 32)) buf.

(** [view.setBigUint64(offset, BigInt(v), true)] *)
Definition setBigUint64 (offset : nat) (v : Z) (buf : Uint8Array) : result Uint8Array :=
  write offset (le_bytes 8 (v mod 2 ^ 64)) buf.

(** [buffer.set(src, offset)] *)
Definition typedSet (src : Uint8Array) (offset : nat) (buf : Uint8Array) : result Uint8Array :=
  write offset src buf.

(** [s.charCodeAt(i)] for the ASCII literals of the source. *)
Definition charCodes (s : list byte) : list Z := map u8val s.

(** ** Checksum engine *)

(** One round of the inner loop of [_makeCRCTable]. *)
Definition crcRound (c : Z) : Z :=
  if JS.truthy (JS.band c 0x80000000)
  then JS.bxor 0x04c11db7 (JS.shl c 1)
  else JS.shl c 1.

(** The body of the outer loop: the table entry for [n]. *)
Definition crcEntry (n : Z) : Z :=
  JS.ushr (Nat.iter 8 crcRound (JS.shl n 24)) 0.

(** [_makeCRCTable()]: entries 0 .. 255, assigned in increasing order. *)
Definition makeCRCTable : list Z :=
  map (fun n => crcEntry (Z.of_nat n)) (seq 0 256).

(** [crcTable[i]] as an operand of [^]: a missing entry is [undefined],
    which ToInt32 turns into 0. *)
Definition tableAt (crcTable : list Z) (i : Z) : Z :=
  default 0 (crcTable !! Z.to_nat i).

(** One iteration of the loop of [_calculateCRC], at index [i]. *)
Definition crcUpdate (crcTable : list Z) (i : nat) (b : byte) (crc : Z) : Z :=
  if (22 <=? i)%nat && (i <=? 25)%nat
  then JS.bxor (JS.shl crc 8)
         (tableAt crcTable (JS.band (JS.bxor (JS.ushr crc 24) 0) 0xFF))
  else JS.bxor (JS.shl crc 8)
         (tableAt crcTable (JS.band (JS.bxor (JS.ushr crc 24) (u8val b)) 0xFF)).

(** The loop from index [i] on, over the cells that remain. *)
Fixpoint crcLoop (crcTable : list Z) (i : nat) (rest : list byte) (crc : Z) : Z :=
  match rest with
  | [] => crc
  | b :: rest' => crcLoop crcTable (S i) rest' (crcUpdate crcTable i b crc)
  end.

(** [_calculateCRC(buffer)] *)
Definition calculateCRC (crcTable : list Z) (buffer : Uint8Array) : Z :=
  JS.ushr (crcLoop crcTable 0 buffer 0) 0.

(** ** The muxer *)

Record OggOpusMuxer := mkMuxer {
  sampleRate : Z;
  channels : Z;
  serial : Z;
  pageSequence : nat;
  granulePosition : Z;
  pages : list Uint8Array;
  crcTable : list Z;
  packetBuffer : list Uint8Array;
  packetSizes : list nat;
  segmentsInBuffer : nat
}.

(** The segment-table loop of [flushPage] for one packet size:
    [while (size >= 255) { view.setUint8(offset++, 255); size -= 255 }
     view.setUint8(offset++, size)]. *)
Equations? writeLacing (size : nat) (offset : nat) (buf : Uint8Array)
  : result (Uint8Array * nat) by wf size lt :=
  writeLacing size offset buf with le_lt_dec 255 size => {
    | left _ with setUint8 offset 255 buf => {
        | Ok buf' => writeLacing (size - 255) (S offset) buf'
        | Throw e => Throw e }
    | right _ =>
        let* buf' := setUint8 offset (Z.of_nat size) buf in
        Ok (buf', S offset) }.
Proof. lia. Defined.

(** The loop over [this.packetSizes]. *)
Fixpoint writeSegmentTable (sizes : list nat) (offset : nat) (buf : Uint8Array)
  : result (Uint8Array * nat) :=
  match sizes with
  | [] => Ok (buf, offset)
  | size :: sizes' =>
      let* '(buf', offset') := writeLacing size offset buf in
      writeSegmentTable sizes' offset' buf'
  end.

(** The loop over [this.packetBuffer]. *)
Fixpoint writeData (packets : list Uint8Array) (offset : nat) (buf : Uint8Array)
  : result (Uint8Array * nat) :=
  match packets with
  | [] => Ok (buf, offset)
  | packet :: packets' =>
      let* buf' := typedSet packet offset buf in
      writeData packets' (offset + length packet)%nat buf'
  end.

(** [capturePattern.forEach((b, i) => view.setUint8(i, b))] and the
    [for] loops that copy the character codes of a string literal. *)
Fixpoint writeCodes (codes : list Z) (offset : nat) (buf : Uint8Array)
  : result Uint8Array :=
  match codes with
  | [] => Ok buf
  | c :: codes' =>
      let* buf' := setUint8 offset c buf in
      writeCodes codes' (S offset) buf'
  end.

Definition capturePattern : list Z := [0x4f; 0x67; 0x67; 0x53].

(** Step 2 of [flushPage], "Write Header": the fields at offsets 0 to 26. *)
Definition writePageHeader (isLast : bool) (m : OggOpusMuxer) (numSegments : nat)
    (buffer : Uint8Array) : result Uint8Array :=
  let* buffer := writeCodes capturePattern 0 buffer in
  let* buffer := setUint8 4 0 buffer in
  let headerType := 0 in
  let headerType := if (pageSequence m =? 0)%nat then JS.bor headerType 0x02 else headerType in
  let headerType := if isLast then JS.bor headerType 0x04 else headerType in
  let* buffer := setUint8 5 headerType buffer in
  let* buffer := setBigUint64 6 (granulePosition m) buffer in
  let* buffer := setUint32 14 (serial m) buffer in
  let* buffer := setUint32 18 (Z.of_nat (pageSequence m)) buffer in
  let* buffer := setUint32 22 0 buffer in
  setUint8 26 (Z.of_nat numSegments) buffer.

(** Steps 1 to 5 of [flushPage]: the finished page buffer. *)
Definition buildPage (isLast : bool) (m : OggOpusMuxer) : result Uint8Array :=
  let numSegments := segmentsInBuffer m in
  let dataSize := foldl Nat.add 0%nat (packetSizes m) in
  let pageSize := (27 + numSegments + dataSize)%nat in
  let buffer := newUint8Array pageSize in
  let* buffer := writePageHeader isLast m numSegments buffer in
  let offset := 27%nat in
  let* '(buffer, offset) := writeSegmentTable (packetSizes m) offset buffer in
  let* '(buffer, offset) := writeData (packetBuffer m) offset buffer in
  let crc := calculateCRC (crcTable m) buffer in
  setUint32 22 crc buffer.

(** [flushPage(isLast = false)] *)
Definition flushPage (isLast : bool) (m : OggOpusMuxer) : result OggOpusMuxer :=
  if (length (packetBuffer m) =? 0)%nat && negb isLast then Ok m
  else
    let* buffer := buildPage isLast m in
    Ok {| sampleRate := sampleRate m;
          channels := channels m;
          serial := serial m;
          pageSequence := S (pageSequence m);
          granulePosition := granulePosition m;
          pages := pages m ++ [buffer];
          crcTable := crcTable m;
          packetBuffer := [];
          packetSizes := [];
          segmentsInBuffer := 0 |}.

(** The tail of [addPacket]: the four updates after the flush decision. *)
Definition acceptPacket (packetData : Uint8Array) (size numSegments : nat)
    (samples : Z) (m : OggOpusMuxer) : OggOpusMuxer :=
  {| sampleRate := sampleRate m;
     channels := channels m;
     serial := serial m;
     pageSequence := pageSequence m;
     granulePosition := JS.add (granulePosition m) samples;
     pages := pages m;
     crcTable := crcTable m;
     packetBuffer := packetBuffer m ++ [packetData];
     packetSizes := packetSizes m ++ [size];
     segmentsInBuffer := segmentsInBuffer m + numSegments |}.

(** [addPacket(packetData, samples)] *)
Definition addPacket (packetData : Uint8Array) (samples : Z) (m : OggOpusMuxer)
  : result OggOpusMuxer :=
  let size := length packetData in
  let numSegments := (size / 255 + 1)%nat in
  let* m := (if (255 <? segmentsInBuffer m + numSegments)%nat
             then flushPage false m else Ok m) in
  Ok (acceptPacket packetData size numSegments samples m).

(** [getBlob()]: the muxer after the terminal flush and the content of the
    returned Blob, the concatenation of [this.pages]. *)
Definition getBlob (m : OggOpusMuxer) : result (OggOpusMuxer * list byte) :=
  let* m := flushPage true m in
  Ok (m, concat (pages m)).

(** The packet that [_writeIdHeader()] builds. *)
Definition idHeader (m : OggOpusMuxer) : result Uint8Array :=
  let header := newUint8Array 19 in
  let magic := charCodes [x4f; x70; x75; x73; x48; x65; x61; x64] in (* "OpusHead" *)
  let* header := writeCodes magic 0 header in
  let* header := setUint8 8 1 header in
  let* header := setUint8 9 (channels m) header in
  let* header := setUint16 10 0 header in
  let* header := setUint32 12 (sampleRate m) header in
  let* header := setUint16 16 0 header in
  setUint8 18 0 header.

(** [_writeIdHeader()] *)
Definition writeIdHeader (m : OggOpusMuxer) : result OggOpusMuxer :=
  let* header := idHeader m in
  let* m := addPacket header 0 m in
  flushPage false m.

(** The vendor string "Geano Scene Optimizer". *)
Definition vendor : list byte :=
  [x47; x65; x61; x6e; x6f; x20; x53; x63; x65; x6e; x65; x20;
   x4f; x70; x74; x69; x6d; x69; x7a; x65; x72].

(** The packet that [_writeCommentHeader()] builds. *)
Definition commentHeader : result Uint8Array :=
  let len := (8 + 4 + length vendor + 4)%nat in
  let buffer := newUint8Array len in
  let magic := charCodes [x4f; x70; x75; x73; x54; x61; x67; x73] in (* "OpusTags" *)
  let* buffer := writeCodes magic 0 buffer in
  let* buffer := setUint32 8 (Z.of_nat (length vendor)) buffer in
  let* buffer := writeCodes (charCodes vendor) 12 buffer in
  setUint32 (12 + length vendor) 0 buffer.

(** [_writeCommentHeader()] *)
Definition writeCommentHeader (m : OggOpusMuxer) : result OggOpusMuxer :=
  let* buffer := commentHeader in
  let* m := addPacket buffer 0 m in
  flushPage false m.

(** The fields that the constructor assigns before it writes the headers.
    The third argument is the value drawn by
    [Math.floor(Math.random() * 0xFFFFFFFF)]. *)
Definition initialMuxer (sampleRate numberOfChannels : Z) (random : Z)
  : OggOpusMuxer :=
  {| sampleRate := sampleRate;
     channels := numberOfChannels;
     serial := random;
     pageSequence := 0;
     granulePosition := 0;
     pages := [];
     crcTable := makeCRCTable;
     packetBuffer := [];
     packetSizes := [];
     segmentsInBuffer := 0 |}.

(** [new OggOpusMuxer(sampleRate, numberOfChannels)] *)
Definition newMuxer (sampleRate numberOfChannels : Z) (random : Z)
  : result OggOpusMuxer :=
  let m := initialMuxer sampleRate numberOfChannels random in
  let* m := writeIdHeader m in
  writeCommentHeader m.



(** ** Closed forms used by the verification *)

(** Number of lacing values of a packet of [size] bytes, as [addPacket]
    counts them. *)
Definition segmentsOf (size : nat) : nat := (size / 255 + 1)%nat.

(** The lacing values of a packet of [size] bytes. *)
Definition lacing (size : nat) : list byte :=
  replicate (size / 255) xff ++ [u8 (Z.of_nat (size mod 255))].

(** The header-type byte that [flushPage] computes. *)
Definition headerType (first isLast : bool) : Z :=
  let headerType := 0 in
  let headerType := if first then JS.bor headerType 0x02 else headerType in
  if isLast then JS.bor headerType 0x04 else headerType.

(** The 27 bytes of a page header, for a given content of the checksum
    field. *)
Definition pageHeader (crcField : list byte) (ser : Z) (seq : nat) (gran : Z)
    (isLast : bool) (numSegments : nat) : list byte :=
  map u8 capturePattern
  ++ [u8 0; u8 (headerType (seq =? 0)%nat isLast)]
  ++ le_bytes 8 (gran mod 2 ^ 64)
  ++ le_bytes 4 (ser mod 2 ^ 32)
  ++ le_bytes 4 (Z.of_nat seq mod 2 ^ 32)
  ++ crcField
  ++ [u8 (Z.of_nat numSegments)].

Definition zeroField : list byte := [x00; x00; x00; x00].

(** A page as a list of bytes, for a given content of the checksum field:
    the 27-byte header, the segment table, the payload. *)
Definition pageWith (crcField : list byte) (ser : Z) (seq : nat) (gran : Z)
    (isLast : bool) (packets : list Uint8Array) : list byte :=
  pageHeader crcField ser seq gran isLast
    (sum_list (map segmentsOf (map length packets)))
  ++ concat (map lacing (map length packets))
  ++ concat packets.

(** The finished page: the checksum of the page with a zero checksum field,
    stored in the checksum field. *)
Definition pageOf (tbl : list Z) (ser : Z) (seq : nat) (gran : Z)
    (isLast : bool) (packets : list Uint8Array) : list byte :=
  pageWith
    (le_bytes 4 (calculateCRC tbl (pageWith zeroField ser seq gran isLast packets) mod 2 ^ 32))
    ser seq gran isLast packets.

(** The pending buffers agree with one another. *)
Definition buffersAgree (m : OggOpusMuxer) : Prop :=
  packetSizes m = map length (packetBuffer m)
  /\ segmentsInBuffer m = sum_list (map segmentsOf (packetSizes m)).

(** What [flushPage] does when it emits a page. *)
Definition flushed (page : Uint8Array) (m : OggOpusMuxer) : OggOpusMuxer :=
  {| sampleRate := sampleRate m;
     channels := channels m;
     serial := serial m;
     pageSequence := S (pageSequence m);
     granulePosition := granulePosition m;
     pages := pages m ++ [page];
     crcTable := crcTable m;
     packetBuffer := [];
     packetSizes := [];
     segmentsInBuffer := 0 |}.


(** ** Reading a page back *)

(** The [width] bytes of a page at [offset]. *)
Definition field (offset width : nat) (page : list byte) : list byte :=
  take width (drop offset page).

Definition capturePatternOf (page : list byte) : list byte := field 0 4 page.
Definition headerTypeOf (page : list byte) : Z := le_value (field 5 1 page).
Definition granuleOf (page : list byte) : Z := le_value (field 6 8 page).
Definition serialOf (page : list byte) : Z := le_value (field 14 4 page).
Definition sequenceOf (page : list byte) : Z := le_value (field 18 4 page).
Definition checksumOf (page : list byte) : Z := le_value (field 22 4 page).
Definition segmentCountOf (page : list byte) : Z := le_value (field 26 1 page).

(** The beginning-of-stream and end-of-stream bits of the header type. *)
Definition flagBOS (page : list byte) : bool := Z.testbit (headerTypeOf page) 1.
Definition flagEOS (page : list byte) : bool := Z.testbit (headerTypeOf page) 2.

(** The page with its checksum field set to zero. *)
Definition zeroChecksum (page : list byte) : list byte := splice 22 zeroField page.

(** ** Calls and their journal *)

(** The calls a client can make on a constructed muxer. *)
Inductive call :=
| AddPacket (packetData : Uint8Array) (samples : Z)
| FlushPage (isLast : bool)
| GetBlob.

Definition step (c : call) (m : OggOpusMuxer) : result OggOpusMuxer :=
  match c with
  | AddPacket packetData samples => addPacket packetData samples m
  | FlushPage isLast => flushPage isLast m
  | GetBlob => let* '(m, _) := getBlob m in Ok m
  end.

Fixpoint run (calls : list call) (m : OggOpusMuxer) : result OggOpusMuxer :=
  match calls with
  | [] => Ok m
  | c :: calls' => let* m := step c m in run calls' m
  end.

(** The journal is bookkeeping outside the program: which packets, with
    which sample counts, went into which page, and which flush emitted it.
    The muxer never reads it. *)
Record pageRecord := mkPageRecord {
  pr_packets : list (Uint8Array * Z);
  pr_isLast : bool
}.

Record journal := mkJournal {
  emitted : list pageRecord;
  pending : list (Uint8Array * Z)
}.

(** [flushPage] with the journal kept: a record is added exactly when the
    call pushed a page. *)
Definition flushPageJ (isLast : bool) (mj : OggOpusMuxer * journal)
  : result (OggOpusMuxer * journal) :=
  let '(m, j) := mj in
  let* m' := flushPage isLast m in
  Ok (m',
      if (length (pages m') =? length (pages m))%nat then j
      else {| emitted := emitted j ++ [mkPageRecord (pending j) isLast];
              pending := [] |}).

(** [addPacket] with the journal kept. *)
Definition addPacketJ (packetData : Uint8Array) (samples : Z)
    (mj : OggOpusMuxer * journal) : result (OggOpusMuxer * journal) :=
  let '(m, j) := mj in
  let size := length packetData in
  let numSegments := (size / 255 + 1)%nat in
  let* '(m, j) := (if (255 <? segmentsInBuffer m + numSegments)%nat
                   then flushPageJ false (m, j) else Ok (m, j)) in
  Ok (acceptPacket packetData size numSegments samples m,
      {| emitted := emitted j; pending := pending j ++ [(packetData, samples)] |}).

Definition stepJ (c : call) (mj : OggOpusMuxer * journal)
  : result (OggOpusMuxer * journal) :=
  match c with
  | AddPacket packetData samples => addPacketJ packetData samples mj
  | FlushPage isLast => flushPageJ isLast mj
  | GetBlob => flushPageJ true mj
  end.

Fixpoint runJ (calls : list call) (mj : OggOpusMuxer * journal)
  : result (OggOpusMuxer * journal) :=
  match calls with
  | [] => Ok mj
  | c :: calls' => let* mj := stepJ c mj in runJ calls' mj
  end.

(** The constructor with the journal kept. *)
Definition newMuxerJ (sampleRate numberOfChannels : Z) (random : Z)
  : result (OggOpusMuxer * journal) :=
  let m := initialMuxer sampleRate numberOfChannels random in
  let* header := idHeader m in
  let* mj := addPacketJ header 0 (m, mkJournal [] []) in
  let* mj := flushPageJ false mj in
  let* buffer := commentHeader in
  let* mj := addPacketJ buffer 0 mj in
  flushPageJ false mj.

(** A session: construction, then a sequence of calls. *)
Definition session (sampleRate numberOfChannels random : Z) (calls : list call)
  : result OggOpusMuxer :=
  let* m := newMuxer sampleRate numberOfChannels random in
  run calls m.

Definition sessionJ (sampleRate numberOfChannels random : Z) (calls : list call)
  : result (OggOpusMuxer * journal) :=
  let* mj := newMuxerJ sampleRate numberOfChannels random in
  runJ calls mj.

(** Forgetting the journal. *)
Definition forget {A B} (r : result (A * B)) : result A :=
  let* '(a, _) := r in Ok a.

(** Sum of the sample counts of a list of packets. *)
Definition samplesOf (packets : list (Uint8Array * Z)) : Z :=
  foldr Z.add 0 (map snd packets).

(** The packets and the sample counts passed to [addPacket] by a sequence
    of calls. *)
Definition passed (calls : list call) : list (Uint8Array * Z) :=
  flat_map (fun c => match c with
                     | AddPacket packetData samples => [(packetData, samples)]
                     | _ => []
                     end) calls.

(** Number of lacing values of the packets of a record. *)
Definition segmentsIn (packets : list (Uint8Array * Z)) : nat :=
  sum_list (map segmentsOf (map length (map fst packets))).

(** The granule position after the packets, from the granule position
    [gran]: one [+=] of [addPacket] for each. *)
Definition granuleAfter (gran : Z) (packets : list (Uint8Array * Z)) : Z :=
  foldl (fun g packet => JS.add g (snd packet)) gran packets.

(** The pages of a journal: page [seq] carries the granule position after
    all packets up to and including its own. *)
Fixpoint render (tbl : list Z) (ser : Z) (seq : nat) (gran : Z)
    (records : list pageRecord) : list Uint8Array :=
  match records with
  | [] => []
  | r :: records' =>
      let gran' := granuleAfter gran (pr_packets r) in
      pageOf tbl ser seq gran' (pr_isLast r) (map fst (pr_packets r))
      :: render tbl ser (S seq) gran' records'
  end.

(** Every integer up to 2^53 in magnitude is a Number: sums that stay
    within it are exact. *)
Definition exactRange : Z := 2 ^ 53.

(** ** The journal on its own *)

(** What the calls do to the journal, as the verification establishes
    ([runJ_journal] below): the muxer's decisions restated on the journal. *)
Definition flushJournal (isLast : bool) (j : journal) : journal :=
  match pending j, isLast with
  | [], false => j
  | _, _ => {| emitted := emitted j ++ [mkPageRecord (pending j) isLast];
               pending := [] |}
  end.

Definition addJournal (packetData : Uint8Array) (samples : Z) (j : journal)
  : journal :=
  let j' := if (255 <? segmentsIn (pending j) + segmentsOf (length packetData))%nat
            then flushJournal false j else j in
  {| emitted := emitted j'; pending := pending j' ++ [(packetData, samples)] |}.

Definition stepJournal (c : call) (j : journal) : journal :=
  match c with
  | AddPacket packetData samples => addJournal packetData samples j
  | FlushPage isLast => flushJournal isLast j
  | GetBlob => flushJournal true j
  end.

Definition runJournal (calls : list call) (j : journal) : journal :=
  foldl (fun j c => stepJournal c j) j calls.

(** The bytes of the identification packet. *)
Definition idHeaderBytes (sampleRate numberOfChannels : Z) : list byte :=
  [x4f; x70; x75; x73; x48; x65; x61; x64]
  ++ [u8 1; u8 numberOfChannels]
  ++ le_bytes 2 0
  ++ le_bytes 4 (sampleRate mod 2 ^ 32)
  ++ le_bytes 2 0
  ++ [u8 0].

(** The bytes of the comment packet. *)
Definition commentHeaderBytes : list byte :=
  [x4f; x70; x75; x73; x54; x61; x67; x73]
  ++ le_bytes 4 (Z.of_nat (length vendor))
  ++ vendor
  ++ le_bytes 4 0.

(** The journal after construction: two pages, one header packet each. *)
Definition initialJournal (sampleRate numberOfChannels : Z) : journal :=
  {| emitted := [mkPageRecord [(idHeaderBytes sampleRate numberOfChannels, 0)] false;
                 mkPageRecord [(commentHeaderBytes, 0)] false];
     pending := [] |}.

(** All packets of a journal, in the order they were accepted. *)
Definition accepted (j : journal) : list (Uint8Array * Z) :=
  concat (map pr_packets (emitted j)) ++ pending j.

(** The muxer and its journal agree. *)
Record consistent (random : Z) (m : OggOpusMuxer) (j : journal) : Prop := {
  cons_table : crcTable m = makeCRCTable;
  cons_serial : serial m = random;
  cons_buffer : packetBuffer m = map fst (pending j);
  cons_agree : buffersAgree m;
  cons_sequence : pageSequence m = length (emitted j);
  cons_granule : granulePosition m = granuleAfter 0 (accepted j);
  cons_pages : pages m = render makeCRCTable random 0 0 (emitted j)
}.

(** ** The checksum as the container format defines it *)

(** The 32-bit cyclic redundancy check with generator polynomial
    0x04C11DB7, zero initial value, bits taken most significant first and
    no final inversion, written bit by bit without a table.  This
    definition follows the description of the algorithm, not the source;
    [calculateCRC] is compared with it. *)
Module Reference.

Definition polynomial : Z := 0x04C11DB7.

(** Shift the remainder left by one bit and reduce it. *)
Definition shiftBit (r : Z) : Z :=
  let r' := (2 * r) mod 2 ^ 32 in
  if Z.testbit r 31 then Z.lxor r' polynomial else r'.

(** Feed one byte into the top of the remainder. *)
Definition feedByte (r : Z) (b : byte) : Z :=
  Nat.iter 8 shiftBit (Z.lxor r (Z.shiftl (u8val b) 24)).

Definition crc32 (bytes : list byte) : Z := foldl feedByte 0 bytes.

End Reference.

(** The lacing values of a packet of [L] bytes as the container format
    states them: [floor(L/255)] values 255, then [L mod 255]. *)
Definition lacingValues (L : nat) : list Z :=
  repeat 255 (L / 255) ++ [Z.of_nat (L mod 255)].

(** A packet that needs at most 255 lacing values. *)
Definition fitsPage (packet : Uint8Array * Z) : Prop :=
  (segmentsOf (length (fst packet)) <= 255)%nat.

(** No pending buffer and no emitted page of the journal holds more than
    255 lacing values. *)
Definition withinBudget (j : journal) : Prop :=
  (segmentsIn (pending j) <= 255)%nat
  /\ Forall (fun r => (segmentsIn (pr_packets r) <= 255)%nat) (emitted j).


(** ** Further readers of a page *)

Definition versionOf (page : list byte) : Z := le_value (field 4 1 page).

(** The segment table and the payload, located through the segment-count
    byte as a reader of the stream does. *)
Definition segmentTableOf (page : list byte) : list byte :=
  field 27 (Z.to_nat (segmentCountOf page)) page.

Definition payloadOf (page : list byte) : list byte :=
  drop (27 + Z.to_nat (segmentCountOf page)) page.

(** The packets of a page, as a reader of the stream takes them out: a
    packet ends with the first lacing value below 255, and its length is
    the sum of its lacing values ([acc] is the sum of the values 255 read
    since the last end of a packet); the payload is then cut at those
    lengths. *)
Fixpoint packetLengths (acc : nat) (table : list byte) : list nat :=
  match table with
  | [] => []
  | value :: table' =>
      if u8val value <? 255
      then (acc + Z.to_nat (u8val value))%nat :: packetLengths 0 table'
      else packetLengths (acc + 255) table'
  end.

Fixpoint cut (lengths : list nat) (payload : list byte) : list Uint8Array :=
  match lengths with
  | [] => []
  | n :: lengths' => take n payload :: cut lengths' (drop n payload)
  end.

Definition packetsOf (page : list byte) : list Uint8Array :=
  cut (packetLengths 0 (segmentTableOf page)) (payloadOf page).

(** The buffer with the cells 22 to 25 read as zero, from index [i] on. *)
Fixpoint zeroCellsFrom (i : nat) (buffer : list byte) : list byte :=
  match buffer with
  | [] => []
  | b :: rest =>
      (if (22 <=? i)%nat && (i <=? 25)%nat then x00 else b)
      :: zeroCellsFrom (S i) rest
  end.

(** ** The caller (scripts/main.js, [_convertAudioToOggFast]) *)

(** The [output] callback of the encoder, once per encoded chunk in output
    order: [muxer.addPacket(buffer, samples)].  A chunk is given by its
    bytes and by the sample count that the callback computes from its
    duration. *)
Fixpoint addChunks (chunks : list (Uint8Array * Z)) (muxer : OggOpusMuxer)
  : result OggOpusMuxer :=
  match chunks with
  | [] => Ok muxer
  | (buffer, samples) :: chunks' =>
      let* muxer := addPacket buffer samples muxer in
      addChunks chunks' muxer
  end.

(** The muxer's part of [_convertAudioToOggFast]: a new muxer for the
    audio buffer's sample rate and channel count, the chunks of the encoder,
    then [muxer.getBlob()]. *)
Definition convertAudioToOggFast (sampleRate numberOfChannels random : Z)
    (chunks : list (Uint8Array * Z)) : result (OggOpusMuxer * list byte) :=
  let* muxer := newMuxer sampleRate numberOfChannels random in
  let* muxer := addChunks chunks muxer in
  getBlob muxer.

(** The calls that [convertAudioToOggFast] makes on its muxer. *)
Definition chunkCalls (chunks : list (Uint8Array * Z)) : list call :=
  map (fun chunk => AddPacket (fst chunk) (snd chunk)) chunks ++ [GetBlob].

(** ** File names (scripts/main.js, [_runAudioOptimization] and
    [_runSceneOptimization]) *)

(** A JavaScript string is a sequence of 16-bit code units, here a list of
    numbers; the string methods below compare code units and nothing
    else. *)
Definition slash : N := 47.
Definition dot : N := 46.

(** [s.split(separator)] for a separator of one code unit: never empty. *)
Fixpoint split (separator : N) (s : list N) : list (list N) :=
  match s with
  | [] => [[]]
  | c :: s' =>
      if (c =? separator)%N then [] :: split separator s'
      else match split separator s' with
           | part :: parts => (c :: part) :: parts
           | [] => [[c]]
           end
  end.

(** [a.pop()]: the last element ([None] for [undefined], on an empty
    array) and the array that is left. *)
Definition pop {A} (a : list A) : option A * list A :=
  (list.last a, take (length a - 1) a).

(** [a.join(separator)] *)
Fixpoint join (separator : list N) (a : list (list N)) : list N :=
  match a with
  | [] => []
  | [part] => part
  | part :: a' => part ++ separator ++ join separator a'
  end.

(** [s.lastIndexOf(c)] for one code unit: the greatest index of [c], or -1.
    [lastIndexFrom] scans from index [i] on and keeps the last index
    found. *)
Fixpoint lastIndexFrom (c : N) (i : Z) (s : list N) (found : Z) : Z :=
  match s with
  | [] => found
  | x :: s' => lastIndexFrom c (i + 1) s' (if (x =? c)%N then i else found)
  end.

Definition lastIndexOf (c : N) (s : list N) : Z := lastIndexFrom c 0 s (-1).

(** [s.substring(start, end)]: both arguments are clamped to the string,
    and swapped when they come in the wrong order. *)
Definition substring (start finish : Z) (s : list N) : list N :=
  let len := Z.of_nat (length s) in
  let a := Z.max 0 (Z.min start len) in
  let b := Z.max 0 (Z.min finish len) in
  take (Z.to_nat (Z.max a b - Z.min a b)) (drop (Z.to_nat (Z.min a b)) s).

(** The names that the optimization of one file computes. *)
Record convertedName := mkConvertedName {
  folderPath : list N;
  fileName : list N;
  nameWithoutExt : list N;
  newFileName : list N;
  newPath : list N
}.

(** The path computation of [_runAudioOptimization] (with [extension]
    ".ogg", on [item.path]) and of [_runSceneOptimization] (with ".webp",
    on the decoded path): split the path at "/", take the file name off,
    cut the file name at its last ".", append the new extension; [newPath]
    is the path used when the upload reports none.  [None] stands for the
    [TypeError] of calling [substring] on [undefined]. *)
Definition convertName (extension : list N) (path : list N) : option convertedName :=
  let pathParts := split slash path in
  let '(fileName, pathParts) := pop pathParts in
  match fileName with
  | None => None
  | Some fileName =>
      let folderPath := join [slash] pathParts in
      let nameWithoutExt := substring 0 (lastIndexOf dot fileName) fileName in
      let newFileName := nameWithoutExt ++ extension in
      Some {| folderPath := folderPath;
              fileName := fileName;
              nameWithoutExt := nameWithoutExt;
              newFileName := newFileName;
              newPath := folderPath ++ [slash] ++ newFileName |}
  end.

(** ".ogg" and ".webp" *)
Definition oggExtension : list N := [46; 111; 103; 103]%N.
Definition webpExtension : list N := [46; 119; 101; 98; 112]%N.
(** * Verification *)

(** ** Bytes and little-endian fields *)

Lemma u8val_u8 (z : Z) : u8val (u8 z) = z mod 256.
Proof.
  unfold u8val, u8.
  pose proof (Z.mod_pos_bound z 256 ltac:(lia)) as Hb.
  destruct (Byte.of_N (Z.to_N (z mod 256))) as [b|] eqn:E.
  - apply Byte.to_of_N in E. rewrite E. lia.
  - apply Byte.of_N_None_iff in E. lia.
Qed.

Lemma u8val_range (b : byte) : 0 <= u8val b < 256.
Proof. unfold u8val. pose proof (Byte.to_N_bounded b). lia. Qed.

Lemma u8_u8val (b : byte) : u8 (u8val b) = b.
Proof.
  unfold u8. rewrite Z.mod_small by apply u8val_range.
  unfold u8val. rewrite N2Z.id, Byte.of_to_N. reflexivity.
Qed.

Lemma u8val_u8_small (z : Z) : 0 <= z < 256 -> u8val (u8 z) = z.
Proof. intros H. rewrite u8val_u8. apply Z.mod_small, H. Qed.

Lemma length_le_bytes (n : nat) (v : Z) : length (le_bytes n v) = n.
Proof. revert v. induction n as [|n IH]; intros v; simpl; [reflexivity|]. now rewrite IH. Qed.

Lemma le_value_le_bytes (n : nat) (v : Z) :
  le_value (le_bytes n v) = v mod 256 ^ Z.of_nat n.
Proof.
  revert v. induction n as [|n IH]; intros v.
  - simpl. now rewrite Z.mod_1_r.
  - cbn [le_bytes le_value]. rewrite u8val_u8, IH.
    replace (256 ^ Z.of_nat (S n)) with (256 * 256 ^ Z.of_nat n)
      by (rewrite Nat2Z.inj_succ, Z.pow_succ_r by lia; reflexivity).
    rewrite Z.rem_mul_r by lia. reflexivity.
Qed.

(** ** Writes into a buffer split at the write position *)

Lemma write_at (offset : nat) (a old b src : list byte) :
  offset = length a -> length old = length src ->
  write offset src (a ++ old ++ b) = Ok (a ++ src ++ b).
Proof.
  intros -> Hl. unfold write, splice.
  rewrite !length_app.
  destruct (Nat.leb_spec (length a + length src) (length a + (length old + length b))); [|lia].
  rewrite take_app_length. rewrite <- Hl.
  rewrite drop_app_add, drop_app_length. reflexivity.
Qed.

Lemma setUint8_at (offset : nat) (a : list byte) (x : byte) (b : list byte) (v : Z) :
  offset = length a ->
  setUint8 offset v (a ++ x :: b) = Ok (a ++ u8 v :: b).
Proof.
  intros ->. unfold setUint8. rewrite length_app. simpl.
  destruct (Nat.ltb_spec (length a) (length a + S (length b))); [|lia].
  rewrite insert_app_r_alt by lia. rewrite Nat.sub_diag. reflexivity.
Qed.

Lemma writeCodes_at (codes : list Z) (offset : nat) (a old b : list byte) :
  offset = length a -> length old = length codes ->
  writeCodes codes offset (a ++ old ++ b) = Ok (a ++ map u8 codes ++ b).
Proof.
  revert offset a old. induction codes as [|c codes IH]; intros offset a old Ha Hl.
  - destruct old; [reflexivity|discriminate].
  - destruct old as [|x old]; [discriminate|].
    cbn [writeCodes]. rewrite <- app_comm_cons, setUint8_at by assumption.
    cbn [bind].
    replace (a ++ u8 c :: old ++ b) with ((a ++ [u8 c]) ++ old ++ b)
      by (rewrite <- app_assoc; reflexivity).
    rewrite IH.
    + rewrite <- app_assoc. reflexivity.
    + rewrite length_app. simpl. lia.
    + simpl in Hl. lia.
Qed.

(** ** The segment table *)

Lemma length_lacing (size : nat) : length (lacing size) = segmentsOf size.
Proof. unfold lacing, segmentsOf. rewrite length_app, length_replicate. reflexivity. Qed.

Lemma writeLacing_lt (size offset : nat) (buf : Uint8Array) :
  (size < 255)%nat ->
  writeLacing size offset buf =
  let* buf' := setUint8 offset (Z.of_nat size) buf in Ok (buf', S offset).
Proof.
  intros H. simp writeLacing. destruct (le_lt_dec 255 size); [lia|]. reflexivity.
Qed.

Lemma writeLacing_ge (size offset : nat) (buf : Uint8Array) :
  (255 <= size)%nat ->
  writeLacing size offset buf =
  let* buf' := setUint8 offset 255 buf in
  writeLacing (size - 255) (S offset) buf'.
Proof.
  intros H. simp writeLacing. destruct (le_lt_dec 255 size); [|lia].
  cbn. destruct (setUint8 offset 255 buf); reflexivity.
Qed.

Lemma writeLacing_at (size : nat) : forall (offset : nat) (a old b : list byte),
  offset = length a -> length old = segmentsOf size ->
  writeLacing size offset (a ++ old ++ b) =
  Ok (a ++ lacing size ++ b, (offset + segmentsOf size)%nat).
Proof.
  induction (lt_wf size) as [size _ IH]. intros offset a old b Ha Hl.
  destruct old as [|x old]; [unfold segmentsOf in Hl; simpl in Hl; lia|].
  destruct (le_lt_dec 255 size) as [Hge|Hlt].
  - rewrite writeLacing_ge by assumption.
    rewrite <- app_comm_cons, setUint8_at by assumption. cbn [bind].
    assert (Hdiv : (size / 255 = S ((size - 255) / 255))%nat).
    { replace size with ((size - 255) + 1 * 255)%nat at 1 by lia.
      rewrite Nat.div_add by lia. lia. }
    assert (Hmod : (size mod 255 = (size - 255) mod 255)%nat).
    { replace size with ((size - 255) + 1 * 255)%nat at 1 by lia.
      rewrite Nat.Div0.mod_add. reflexivity. }
    replace (a ++ u8 255 :: old ++ b) with ((a ++ [u8 255]) ++ old ++ b)
      by (rewrite <- app_assoc; reflexivity).
    rewrite (IH (size - 255)%nat).
    + unfold lacing, segmentsOf. rewrite Hdiv, Hmod. cbn [replicate].
      rewrite <- !app_assoc. simpl. do 2 f_equal. lia.
    + lia.
    + rewrite length_app. simpl. lia.
    + unfold segmentsOf in *. rewrite Hdiv in Hl. cbn [length] in Hl. lia.
  - rewrite writeLacing_lt by assumption.
    assert (Hdiv : (size / 255 = 0)%nat) by (apply Nat.div_small; lia).
    assert (Hmod : (size mod 255 = size)%nat) by (apply Nat.mod_small; lia).
    unfold segmentsOf in *. rewrite Hdiv in *. simpl in Hl.
    destruct old; [|simpl in Hl; lia].
    rewrite <- app_comm_cons, setUint8_at by assumption. cbn [bind].
    unfold lacing. rewrite Hdiv, Hmod. simpl. do 2 f_equal. lia.
Qed.

Lemma writeSegmentTable_at (sizes : list nat) :
  forall (offset : nat) (a old b : list byte),
  offset = length a -> length old = sum_list (map segmentsOf sizes) ->
  writeSegmentTable sizes offset (a ++ old ++ b) =
  Ok (a ++ concat (map lacing sizes) ++ b, (offset + length old)%nat).
Proof.
  induction sizes as [|size sizes IH]; intros offset a old b Ha Hl.
  - destruct old; [|discriminate]. simpl. do 2 f_equal. lia.
  - change (length old = (segmentsOf size + sum_list (map segmentsOf sizes))%nat) in Hl.
    rewrite <- (take_drop (segmentsOf size) old), <- app_assoc.
    assert (Ht : length (take (segmentsOf size) old) = segmentsOf size)
      by (rewrite length_take; lia).
    cbn [writeSegmentTable].
    rewrite writeLacing_at by assumption. cbn [bind].
    replace (a ++ lacing size ++ drop (segmentsOf size) old ++ b)
      with ((a ++ lacing size) ++ drop (segmentsOf size) old ++ b)
      by (rewrite <- app_assoc; reflexivity).
    rewrite IH.
    + cbn [map concat]. rewrite <- !app_assoc.
      rewrite length_app, Ht, length_drop. do 2 f_equal. lia.
    + rewrite length_app, length_lacing. lia.
    + rewrite length_drop. lia.
Qed.

Lemma writeData_at (packets : list Uint8Array) :
  forall (offset : nat) (a old b : list byte),
  offset = length a -> length old = sum_list (map length packets) ->
  writeData packets offset (a ++ old ++ b) =
  Ok (a ++ concat packets ++ b, (offset + length old)%nat).
Proof.
  induction packets as [|packet packets IH]; intros offset a old b Ha Hl.
  - destruct old; [|discriminate]. simpl. do 2 f_equal. lia.
  - change (length old = (length packet + sum_list (map length packets))%nat) in Hl.
    rewrite <- (take_drop (length packet) old), <- app_assoc.
    assert (Ht : length (take (length packet) old) = length packet)
      by (rewrite length_take; lia).
    cbn [writeData]. unfold typedSet.
    rewrite write_at by assumption. cbn [bind].
    replace (a ++ packet ++ drop (length packet) old ++ b)
      with ((a ++ packet) ++ drop (length packet) old ++ b)
      by (rewrite <- app_assoc; reflexivity).
    rewrite IH.
    + cbn [concat]. rewrite <- !app_assoc.
      rewrite length_app, Ht, length_drop. do 2 f_equal. lia.
    + rewrite length_app. lia.
    + rewrite length_drop. lia.
Qed.

(** ** The page layout *)

Lemma writePageHeader_ok (isLast : bool) (m : OggOpusMuxer) (numSegments : nat)
    (h rest : list byte) :
  length h = 27%nat ->
  writePageHeader isLast m numSegments (h ++ rest) =
  Ok (pageHeader zeroField (serial m) (pageSequence m) (granulePosition m)
        isLast numSegments ++ rest).
Proof.
  intros Hh. do 27 (destruct h as [|? h]; [discriminate|]).
  destruct h; [|discriminate].
  unfold writePageHeader, pageHeader. fold (headerType (pageSequence m =? 0)%nat isLast).
  cbv [bind setUint8 setUint32 setBigUint64 write splice writeCodes capturePattern
       length app firstn skipn Nat.ltb Nat.leb Nat.add insert list_insert
       le_bytes map zeroField].
  reflexivity.
Qed.

Lemma length_pageHeader (f : list byte) ser seq gran isLast n :
  length f = 4%nat -> length (pageHeader f ser seq gran isLast n) = 27%nat.
Proof.
  intros Hf. do 4 (destruct f as [|? f]; [discriminate|]).
  destruct f; [|discriminate]. reflexivity.
Qed.

Lemma setUint32_crcField (crc : Z) (f : list byte) ser seq gran isLast n
    (rest : list byte) :
  length f = 4%nat ->
  setUint32 22 crc (pageHeader f ser seq gran isLast n ++ rest) =
  Ok (pageHeader (le_bytes 4 (crc mod 2 ^ 32)) ser seq gran isLast n ++ rest).
Proof.
  intros Hf. do 4 (destruct f as [|? f]; [discriminate|]).
  destruct f; [|discriminate].
  unfold pageHeader.
  cbv [setUint32 write splice capturePattern
       length app firstn skipn Nat.leb Nat.add le_bytes map].
  reflexivity.
Qed.

Lemma foldl_add_sum (l : list nat) (a : nat) :
  foldl Nat.add a l = (a + sum_list l)%nat.
Proof.
  revert a. induction l as [|x l IH]; intros a; simpl; [lia|].
  rewrite IH. lia.
Qed.

Lemma length_concat_lacing (sizes : list nat) :
  length (concat (map lacing sizes)) = sum_list (map segmentsOf sizes).
Proof.
  induction sizes as [|x l IH]; [reflexivity|].
  cbn [map concat]. rewrite length_app, length_lacing, IH. reflexivity.
Qed.

Lemma buildPage_ok (isLast : bool) (m : OggOpusMuxer) :
  buffersAgree m ->
  buildPage isLast m =
  Ok (pageOf (crcTable m) (serial m) (pageSequence m) (granulePosition m)
        isLast (packetBuffer m)).
Proof.
  intros [Hsz Hseg]. unfold buildPage, pageOf, pageWith.
  rewrite foldl_add_sum, Nat.add_0_l, Hseg, Hsz.
  set (sizes := map length (packetBuffer m)).
  set (n := sum_list (map segmentsOf sizes)).
  set (d := sum_list sizes).
  unfold newUint8Array.
  replace (27 + n + d)%nat with (27 + (n + d))%nat by lia.
  rewrite !replicate_add.
  rewrite writePageHeader_ok by apply length_replicate. cbn [bind].
  set (hdr := pageHeader zeroField _ _ _ _ _).
  assert (Hhdr : length hdr = 27%nat) by (apply length_pageHeader; reflexivity).
  rewrite (writeSegmentTable_at sizes 27 hdr (replicate n x00) (replicate d x00))
    by (rewrite ?length_replicate; auto).
  cbn [bind]. rewrite length_replicate.
  replace (hdr ++ concat (map lacing sizes) ++ replicate d x00)
    with ((hdr ++ concat (map lacing sizes)) ++ replicate d x00 ++ [])
    by (rewrite app_nil_r, <- app_assoc; reflexivity).
  rewrite writeData_at.
  - cbn [bind]. rewrite app_nil_r, <- app_assoc.
    subst hdr. apply setUint32_crcField. reflexivity.
  - rewrite length_app, Hhdr, length_concat_lacing. reflexivity.
  - apply length_replicate.
Qed.

Lemma flushPage_emits (isLast : bool) (m : OggOpusMuxer) :
  buffersAgree m ->
  packetBuffer m <> [] \/ isLast = true ->
  flushPage isLast m =
  Ok (flushed (pageOf (crcTable m) (serial m) (pageSequence m)
                 (granulePosition m) isLast (packetBuffer m)) m).
Proof.
  intros Hagree Hemit. unfold flushPage.
  rewrite buildPage_ok by assumption. cbn [bind].
  destruct Hemit as [Hne| ->].
  - destruct (packetBuffer m); [congruence|]. reflexivity.
  - rewrite andb_false_r. reflexivity.
Qed.

Lemma flushPage_idle (m : OggOpusMuxer) :
  packetBuffer m = [] -> flushPage false m = Ok m.
Proof. intros H. unfold flushPage. rewrite H. reflexivity. Qed.

(** ** The journal follows the muxer *)

Lemma samplesOf_app (l k : list (Uint8Array * Z)) :
  samplesOf (l ++ k) = samplesOf l + samplesOf k.
Proof.
  unfold samplesOf. induction l as [|x l IH]; simpl; [reflexivity|].
  rewrite IH. lia.
Qed.

Lemma granuleAfter_app (gran : Z) (l k : list (Uint8Array * Z)) :
  granuleAfter gran (l ++ k) = granuleAfter (granuleAfter gran l) k.
Proof. unfold granuleAfter. apply foldl_app. Qed.

Lemma segmentsIn_app (l k : list (Uint8Array * Z)) :
  segmentsIn (l ++ k) = (segmentsIn l + segmentsIn k)%nat.
Proof.
  unfold segmentsIn. rewrite !map_app. induction l as [|x l IH]; simpl; [reflexivity|].
  rewrite IH. lia.
Qed.

Lemma render_snoc (tbl : list Z) (ser : Z) (rs : list pageRecord) (r : pageRecord) :
  forall (seq : nat) (gran : Z),
  render tbl ser seq gran (rs ++ [r]) =
  render tbl ser seq gran rs
  ++ [pageOf tbl ser (seq + length rs)
        (granuleAfter gran (concat (map pr_packets rs) ++ pr_packets r))
        (pr_isLast r) (map fst (pr_packets r))].
Proof.
  induction rs as [|r0 rs IH]; intros seq gran.
  - cbn [app render map concat length]. rewrite Nat.add_0_r. reflexivity.
  - cbn [app render map concat length].
    rewrite IH, <- app_assoc, !granuleAfter_app, Nat.add_succ_comm. reflexivity.
Qed.

Lemma length_render tbl ser rs : forall seq gran,
  length (render tbl ser seq gran rs) = length rs.
Proof. induction rs as [|r rs IH]; intros; simpl; [reflexivity|]. now rewrite IH. Qed.

Lemma consistent_flushed (random : Z) (isLast : bool) (m : OggOpusMuxer) (j : journal) :
  consistent random m j ->
  consistent random
    (flushed (pageOf (crcTable m) (serial m) (pageSequence m)
                (granulePosition m) isLast (packetBuffer m)) m)
    {| emitted := emitted j ++ [mkPageRecord (pending j) isLast]; pending := [] |}.
Proof.
  intros [Ht Hs Hb Ha Hq Hg Hp].
  split; cbn [crcTable serial packetBuffer packetSizes segmentsInBuffer
              pageSequence granulePosition pages emitted pending flushed].
  - assumption.
  - assumption.
  - reflexivity.
  - split; reflexivity.
  - rewrite length_app, Hq. simpl. lia.
  - rewrite Hg. unfold accepted. cbn [emitted pending].
    rewrite map_app, concat_app. cbn [map concat pr_packets].
    rewrite !app_nil_r. reflexivity.
  - rewrite Hp, render_snoc, Ht, Hs, Hq, Hb, Hg.
    cbn [pr_packets pr_isLast Nat.add]. reflexivity.
Qed.

Lemma flushPageJ_journal (random : Z) (isLast : bool) (m : OggOpusMuxer) (j : journal) :
  consistent random m j ->
  exists m', flushPageJ isLast (m, j) = Ok (m', flushJournal isLast j)
             /\ consistent random m' (flushJournal isLast j).
Proof.
  intros C. pose proof (consistent_flushed random isLast m j C) as C'.
  pose proof C as [Ht Hs Hb Ha Hq Hg Hp].
  assert (Hgrow : forall p, (length (pages m ++ [p]) =? length (pages m))%nat = false).
  { intros p. rewrite length_app. apply Nat.eqb_neq. simpl. lia. }
  unfold flushPageJ, flushJournal.
  destruct (pending j) as [|x pend] eqn:Hpend; [destruct isLast|].
  - (* terminal flush of an empty buffer *)
    rewrite flushPage_emits by auto. cbn [bind flushed pages].
    rewrite Hgrow. eexists. split; [reflexivity|]. exact C'.
  - (* non-terminal flush of an empty buffer *)
    rewrite flushPage_idle by (rewrite Hb; reflexivity). cbn [bind].
    rewrite Nat.eqb_refl. eexists. split; [reflexivity|]. exact C.
  - (* the buffer holds packets *)
    rewrite flushPage_emits by (auto; left; rewrite Hb; discriminate).
    cbn [bind flushed pages].
    rewrite Hgrow. eexists. split; [reflexivity|]. exact C'.
Qed.

Lemma sum_list_snoc (l : list nat) (x : nat) :
  sum_list (l ++ [x]) = (sum_list l + x)%nat.
Proof. induction l as [|y l IH]; simpl; lia. Qed.

Lemma segmentsInBuffer_journal (random : Z) (m : OggOpusMuxer) (j : journal) :
  consistent random m j -> segmentsInBuffer m = segmentsIn (pending j).
Proof.
  intros [_ _ Hb [Hsz Hseg] _ _ _]. unfold segmentsIn.
  rewrite Hseg, Hsz, Hb. reflexivity.
Qed.

Lemma consistent_accept (random : Z) (packetData : Uint8Array) (samples : Z)
    (m : OggOpusMuxer) (j : journal) :
  consistent random m j ->
  consistent random
    (acceptPacket packetData (length packetData)
       (segmentsOf (length packetData)) samples m)
    {| emitted := emitted j; pending := pending j ++ [(packetData, samples)] |}.
Proof.
  intros [Ht Hs Hb [Hsz Hseg] Hq Hg Hp].
  split; cbn [crcTable serial packetBuffer packetSizes segmentsInBuffer
              pageSequence granulePosition pages emitted pending acceptPacket];
    try assumption.
  - rewrite Hb, map_app. reflexivity.
  - split; cbn [packetBuffer packetSizes segmentsInBuffer acceptPacket].
    + rewrite Hsz, map_app. reflexivity.
    + rewrite Hseg, map_app. cbn [map]. rewrite sum_list_snoc. reflexivity.
  - rewrite Hg. unfold accepted, granuleAfter. cbn [emitted pending].
    rewrite app_assoc, foldl_snoc. reflexivity.
Qed.

Lemma addPacketJ_journal (random : Z) (packetData : Uint8Array) (samples : Z)
    (m : OggOpusMuxer) (j : journal) :
  consistent random m j ->
  exists m', addPacketJ packetData samples (m, j)
             = Ok (m', addJournal packetData samples j)
             /\ consistent random m' (addJournal packetData samples j).
Proof.
  intros C. unfold addPacketJ, addJournal.
  rewrite (segmentsInBuffer_journal _ _ _ C).
  fold (segmentsOf (length packetData)).
  destruct (255 <? segmentsIn (pending j) + segmentsOf (length packetData))%nat.
  - destruct (flushPageJ_journal random false m j C) as (m' & Hflush & C').
    rewrite Hflush. cbn [bind]. eexists. split; [reflexivity|].
    apply consistent_accept, C'.
  - cbn [bind]. eexists. split; [reflexivity|].
    apply consistent_accept, C.
Qed.

Lemma stepJ_journal (random : Z) (c : call) (m : OggOpusMuxer) (j : journal) :
  consistent random m j ->
  exists m', stepJ c (m, j) = Ok (m', stepJournal c j)
             /\ consistent random m' (stepJournal c j).
Proof.
  intros C. destruct c as [packetData samples|isLast|]; cbn [stepJ stepJournal].
  - apply addPacketJ_journal, C.
  - apply flushPageJ_journal, C.
  - apply flushPageJ_journal, C.
Qed.

Lemma runJ_journal (random : Z) (calls : list call) :
  forall (m : OggOpusMuxer) (j : journal),
  consistent random m j ->
  exists m', runJ calls (m, j) = Ok (m', runJournal calls j)
             /\ consistent random m' (runJournal calls j).
Proof.
  induction calls as [|c calls IH]; intros m j C.
  - exists m. split; [reflexivity|exact C].
  - destruct (stepJ_journal random c m j C) as (m1 & Hstep & C1).
    cbn [runJ]. rewrite Hstep. cbn [bind].
    apply IH, C1.
Qed.

(** The header packets. *)

Lemma idHeader_ok (m : OggOpusMuxer) :
  idHeader m = Ok (idHeaderBytes (sampleRate m) (channels m)).
Proof.
  unfold idHeader, idHeaderBytes.
  cbv [bind setUint8 setUint16 setUint32 write splice writeCodes charCodes
       newUint8Array replicate
       length app firstn skipn Nat.ltb Nat.leb Nat.add insert list_insert
       le_bytes map].
  reflexivity.
Qed.

Lemma commentHeader_ok : commentHeader = Ok commentHeaderBytes.
Proof. reflexivity. Qed.

Lemma initial_consistent (rate chans random : Z) :
  consistent random (initialMuxer rate chans random)
    (mkJournal [] []).
Proof. split; try reflexivity. split; reflexivity. Qed.

Lemma newMuxerJ_journal (rate chans random : Z) :
  exists m, newMuxerJ rate chans random
            = Ok (m, initialJournal rate chans)
            /\ consistent random m (initialJournal rate chans).
Proof.
  unfold newMuxerJ. rewrite idHeader_ok. cbn [bind].
  pose proof (initial_consistent rate chans random) as C0.
  destruct (addPacketJ_journal random
              (idHeaderBytes rate chans) 0 _ _ C0) as (m1 & H1 & C1).
  cbn [initialMuxer sampleRate channels] in H1 |- *.
  rewrite H1. cbn [bind].
  destruct (flushPageJ_journal random false _ _ C1) as (m2 & H2 & C2).
  rewrite H2. cbn [bind]. rewrite commentHeader_ok. cbn [bind].
  destruct (addPacketJ_journal random commentHeaderBytes 0 _ _ C2) as (m3 & H3 & C3).
  rewrite H3. cbn [bind].
  destruct (flushPageJ_journal random false _ _ C3) as (m4 & H4 & C4).
  rewrite H4. exists m4. split; [reflexivity|]. exact C4.
Qed.

(** Forgetting the journal gives back the program. *)

Lemma flushPageJ_forget (isLast : bool) (m : OggOpusMuxer) (j : journal) :
  forget (flushPageJ isLast (m, j)) = flushPage isLast m.
Proof. unfold forget, flushPageJ. destruct (flushPage isLast m); reflexivity. Qed.

Lemma addPacketJ_forget (packetData : Uint8Array) (samples : Z)
    (m : OggOpusMuxer) (j : journal) :
  forget (addPacketJ packetData samples (m, j)) = addPacket packetData samples m.
Proof.
  unfold forget, addPacketJ, addPacket.
  destruct (255 <? _)%nat; [|reflexivity].
  unfold flushPageJ. destruct (flushPage false m); reflexivity.
Qed.

Lemma stepJ_forget (c : call) (m : OggOpusMuxer) (j : journal) :
  forget (stepJ c (m, j)) = step c m.
Proof.
  destruct c as [packetData samples|isLast|]; cbn [stepJ step].
  - apply addPacketJ_forget.
  - apply flushPageJ_forget.
  - unfold getBlob. rewrite <- (flushPageJ_forget true m j).
    destruct (flushPageJ true (m, j)) as [[m' j']|]; reflexivity.
Qed.

Lemma runJ_forget (calls : list call) : forall (m : OggOpusMuxer) (j : journal),
  forget (runJ calls (m, j)) = run calls m.
Proof.
  induction calls as [|c calls IH]; intros m j; [reflexivity|].
  cbn [runJ run]. rewrite <- (stepJ_forget c m j).
  destruct (stepJ c (m, j)) as [[m' j']|]; cbn [forget bind]; [apply IH|reflexivity].
Qed.

Lemma newMuxerJ_forget (rate chans random : Z) :
  forget (newMuxerJ rate chans random) = newMuxer rate chans random.
Proof.
  unfold newMuxerJ, newMuxer, writeIdHeader, writeCommentHeader.
  destruct (idHeader _) as [header|]; [|reflexivity]. cbn [bind].
  rewrite <- (addPacketJ_forget header 0 _ (mkJournal [] [])).
  destruct (addPacketJ header 0 _) as [[m1 j1]|]; [|reflexivity]. cbn [forget bind].
  rewrite <- (flushPageJ_forget false m1 j1).
  destruct (flushPageJ false (m1, j1)) as [[m2 j2]|]; [|reflexivity]. cbn [forget bind].
  destruct commentHeader as [buffer|]; [|reflexivity]. cbn [bind].
  rewrite <- (addPacketJ_forget buffer 0 m2 j2).
  destruct (addPacketJ buffer 0 _) as [[m3 j3]|]; [|reflexivity]. cbn [forget bind].
  rewrite <- (flushPageJ_forget false m3 j3).
  destruct (flushPageJ false (m3, j3)) as [[m4 j4]|]; reflexivity.
Qed.

Lemma session_forget (rate chans random : Z) (calls : list call) :
  forget (sessionJ rate chans random calls) = session rate chans random calls.
Proof.
  unfold sessionJ, session. rewrite <- newMuxerJ_forget.
  destruct (newMuxerJ rate chans random) as [[m j]|]; [|reflexivity].
  cbn [forget bind]. apply runJ_forget.
Qed.

(** Every session runs to completion, and its muxer agrees with the
    journal of its calls. *)
Lemma session_journal (rate chans random : Z) (calls : list call) :
  exists m,
    session rate chans random calls = Ok m
    /\ sessionJ rate chans random calls
       = Ok (m, runJournal calls (initialJournal rate chans))
    /\ consistent random m (runJournal calls (initialJournal rate chans)).
Proof.
  destruct (newMuxerJ_journal rate chans random) as (m0 & Hnew & C0).
  destruct (runJ_journal random calls m0 _ C0) as (m & Hrun & C).
  assert (HJ : sessionJ rate chans random calls
               = Ok (m, runJournal calls (initialJournal rate chans))).
  { unfold sessionJ. rewrite Hnew. exact Hrun. }
  exists m. split; [|split; assumption].
  rewrite <- session_forget, HJ. reflexivity.
Qed.

(** ** The fields of a page *)

Lemma length_concat_sum (ls : list (list byte)) :
  length (concat ls) = sum_list (map length ls).
Proof.
  induction ls as [|l ls IH]; [reflexivity|].
  cbn [concat map]. rewrite length_app, IH. reflexivity.
Qed.

Section PageFields.

Variables (tbl : list Z) (ser : Z) (seq : nat) (gran : Z) (isLast : bool)
          (packets : list Uint8Array).

Let crc := calculateCRC tbl (pageWith zeroField ser seq gran isLast packets).
Let page := pageOf tbl ser seq gran isLast packets.

Lemma capturePatternOf_page : capturePatternOf page = [x4f; x67; x67; x53].
Proof. reflexivity. Qed.

Lemma headerType_range (first : bool) : 0 <= headerType first isLast < 256.
Proof. destruct first, isLast; vm_compute; split; congruence. Qed.

Lemma headerTypeOf_page : headerTypeOf page = headerType (seq =? 0)%nat isLast.
Proof.
  change (headerTypeOf page) with (u8val (u8 (headerType (seq =? 0)%nat isLast)) + 256 * 0).
  rewrite u8val_u8_small by apply headerType_range. lia.
Qed.

Lemma granuleOf_page : granuleOf page = gran mod 2 ^ 64.
Proof.
  change (granuleOf page) with (le_value (le_bytes 8 (gran mod 2 ^ 64))).
  rewrite le_value_le_bytes. change (256 ^ Z.of_nat 8) with (2 ^ 64).
  apply Z.mod_mod. lia.
Qed.

Lemma serialOf_page : serialOf page = ser mod 2 ^ 32.
Proof.
  change (serialOf page) with (le_value (le_bytes 4 (ser mod 2 ^ 32))).
  rewrite le_value_le_bytes. change (256 ^ Z.of_nat 4) with (2 ^ 32).
  apply Z.mod_mod. lia.
Qed.

Lemma sequenceOf_page : sequenceOf page = Z.of_nat seq mod 2 ^ 32.
Proof.
  change (sequenceOf page) with (le_value (le_bytes 4 (Z.of_nat seq mod 2 ^ 32))).
  rewrite le_value_le_bytes. change (256 ^ Z.of_nat 4) with (2 ^ 32).
  apply Z.mod_mod. lia.
Qed.

Lemma checksumOf_page : checksumOf page = crc mod 2 ^ 32.
Proof.
  change (checksumOf page) with (le_value (le_bytes 4 (crc mod 2 ^ 32))).
  rewrite le_value_le_bytes. change (256 ^ Z.of_nat 4) with (2 ^ 32).
  apply Z.mod_mod. lia.
Qed.

Lemma segmentCountOf_page :
  segmentCountOf page
  = Z.of_nat (sum_list (map segmentsOf (map length packets))) mod 256.
Proof.
  change (segmentCountOf page)
    with (u8val (u8 (Z.of_nat (sum_list (map segmentsOf (map length packets))))) + 256 * 0).
  rewrite u8val_u8. lia.
Qed.

Lemma zeroChecksum_page :
  zeroChecksum page = pageWith zeroField ser seq gran isLast packets.
Proof. reflexivity. Qed.

Lemma length_page :
  length page
  = (27 + sum_list (map segmentsOf (map length packets))
     + sum_list (map length packets))%nat.
Proof.
  unfold page, pageOf, pageWith.
  rewrite !length_app, length_pageHeader, length_concat_lacing by apply length_le_bytes.
  rewrite length_concat_sum. lia.
Qed.

End PageFields.

(** ** The checksum engine against the bitwise definition *)

Lemma toUint32_range (z : Z) : 0 <= JS.toUint32 z < 2 ^ 32.
Proof. apply Z.mod_pos_bound. lia. Qed.

Lemma toUint32_toInt32 (z : Z) : JS.toUint32 (JS.toInt32 z) = JS.toUint32 z.
Proof.
  unfold JS.toUint32, JS.toInt32.
  rewrite Zminus_mod_idemp_l.
  replace (z + 2 ^ 31 - 2 ^ 31) with z by lia. reflexivity.
Qed.

Lemma toInt32_small (z : Z) : 0 <= z < 2 ^ 31 -> JS.toInt32 z = z.
Proof. intros H. unfold JS.toInt32. rewrite Z.mod_small; lia. Qed.

Lemma toUint32_small (z : Z) : 0 <= z < 2 ^ 32 -> JS.toUint32 z = z.
Proof. intros H. apply Z.mod_small, H. Qed.

Lemma toUint32_lxor (a b : Z) :
  JS.toUint32 (Z.lxor a b) = Z.lxor (JS.toUint32 a) (JS.toUint32 b).
Proof.
  unfold JS.toUint32. rewrite <- !Z.land_ones by lia.
  apply Z.bits_inj'. intros n Hn.
  rewrite ?Z.lxor_spec, ?Z.land_spec, ?Z.lxor_spec.
  destruct (Z.testbit a n), (Z.testbit b n), (Z.testbit (Z.ones 32) n); reflexivity.
Qed.

Lemma toUint32_bxor (a b : Z) :
  JS.toUint32 (JS.bxor a b) = Z.lxor (JS.toUint32 a) (JS.toUint32 b).
Proof.
  unfold JS.bxor. rewrite toUint32_toInt32, toUint32_lxor, !toUint32_toInt32.
  reflexivity.
Qed.

Lemma toUint32_shl (a k : Z) :
  0 <= k < 32 ->
  JS.toUint32 (JS.shl a k) = (JS.toUint32 a * 2 ^ k) mod 2 ^ 32.
Proof.
  intros Hk. unfold JS.shl. rewrite toUint32_toInt32.
  rewrite (toUint32_small k) by lia. rewrite (Z.mod_small k 32) by lia.
  rewrite Z.shiftl_mul_pow2 by lia.
  unfold JS.toUint32 at 1. rewrite <- Z.mul_mod_idemp_l by lia.
  fold (JS.toUint32 (JS.toInt32 a)). rewrite toUint32_toInt32. reflexivity.
Qed.

Lemma ushr_div (a k : Z) :
  0 <= k < 32 -> JS.ushr a k = JS.toUint32 a / 2 ^ k.
Proof.
  intros Hk. unfold JS.ushr.
  rewrite (toUint32_small k) by lia. rewrite (Z.mod_small k 32) by lia.
  apply Z.shiftr_div_pow2. lia.
Qed.

Lemma lxor_byte_range (a b : Z) :
  0 <= a < 256 -> 0 <= b < 256 -> 0 <= Z.lxor a b < 256.
Proof.
  intros Ha Hb. split.
  - apply Z.lxor_nonneg. lia.
  - destruct (Z.eq_dec (Z.lxor a b) 0) as [->|Hne]; [lia|].
    assert (H0 : 0 < Z.lxor a b) by (pose proof (proj2 (Z.lxor_nonneg a b)); lia).
    apply (Z.log2_lt_pow2 _ 8 H0).
    eapply Z.le_lt_trans; [apply Z.log2_lxor; lia|].
    apply Z.max_lub_lt.
    + destruct (Z.eq_dec a 0) as [->|]; [reflexivity|]. apply Z.log2_lt_pow2; lia.
    + destruct (Z.eq_dec b 0) as [->|]; [reflexivity|]. apply Z.log2_lt_pow2; lia.
Qed.

(** The table index that [_calculateCRC] computes. *)
Lemma crc_index (crc v : Z) :
  0 <= v < 256 ->
  JS.band (JS.bxor (JS.ushr crc 24) v) 0xFF
  = Z.lxor (JS.toUint32 crc / 2 ^ 24) v.
Proof.
  intros Hv. rewrite ushr_div by lia.
  pose proof (toUint32_range crc) as Hu.
  assert (Hhi : 0 <= JS.toUint32 crc / 2 ^ 24 < 256).
  { split; [apply Z.div_pos; lia|apply Z.div_lt_upper_bound; lia]. }
  pose proof (lxor_byte_range _ _ Hhi Hv) as Hx.
  unfold JS.bxor.
  rewrite (toInt32_small (JS.toUint32 crc / 2 ^ 24)), (toInt32_small v) by lia.
  rewrite (toInt32_small (Z.lxor _ _)) by lia.
  unfold JS.band.
  rewrite (toInt32_small (Z.lxor _ _)), (toInt32_small 255) by lia.
  change 255 with (Z.ones 8). rewrite Z.land_ones by lia.
  change (2 ^ 8) with 256. rewrite Z.mod_small by lia.
  apply toInt32_small. lia.
Qed.

Ltac bitwise :=
  apply Z.bits_inj'; intros ?n ?Hn;
  rewrite ?Z.lxor_spec, ?Z.bits_0;
  repeat match goal with
         | |- context [Z.testbit ?a ?n] => destruct (Z.testbit a n)
         end;
  reflexivity.

Lemma lxor_range (k a b : Z) :
  0 <= k -> 0 <= a < 2 ^ k -> 0 <= b < 2 ^ k -> 0 <= Z.lxor a b < 2 ^ k.
Proof.
  intros Hk Ha Hb. split; [apply Z.lxor_nonneg; lia|].
  assert (Hx : 0 <= Z.lxor a b) by (apply Z.lxor_nonneg; lia).
  rewrite <- (Z.mod_small (Z.lxor a b) (2 ^ k)); [apply Z.mod_pos_bound; lia|].
  split; [assumption|].
  rewrite <- (Z.mod_small a (2 ^ k)) at 1 by lia.
  rewrite <- (Z.mod_small b (2 ^ k)) at 1 by lia.
  rewrite <- !Z.land_ones by lia.
  assert (E : Z.lxor (Z.land a (Z.ones k)) (Z.land b (Z.ones k))
              = Z.land (Z.lxor a b) (Z.ones k)).
  { apply Z.bits_inj'. intros n Hn.
    rewrite ?Z.lxor_spec, ?Z.land_spec, ?Z.lxor_spec.
    destruct (Z.testbit a n), (Z.testbit b n), (Z.testbit (Z.ones k) n); reflexivity. }
  rewrite E, Z.land_ones by lia. apply Z.mod_pos_bound. lia.
Qed.

Section ReferenceCRC.

Import Reference.

Lemma shiftBit_alt (r : Z) :
  shiftBit r
  = Z.lxor (JS.toUint32 (Z.shiftl r 1)) (if Z.testbit r 31 then polynomial else 0).
Proof.
  unfold shiftBit, JS.toUint32. rewrite Z.shiftl_mul_pow2 by lia.
  replace (r * 2 ^ 1) with (2 * r) by lia.
  destruct (Z.testbit r 31); [reflexivity|]. now rewrite Z.lxor_0_r.
Qed.

Lemma shiftBit_lxor (x y : Z) :
  shiftBit (Z.lxor x y) = Z.lxor (shiftBit x) (shiftBit y).
Proof.
  rewrite !shiftBit_alt, Z.shiftl_lxor, toUint32_lxor, Z.lxor_spec.
  generalize (JS.toUint32 (Z.shiftl x 1)) (JS.toUint32 (Z.shiftl y 1)).
  intros a b.
  destruct (Z.testbit x 31), (Z.testbit y 31); cbn [xorb]; bitwise.
Qed.

Lemma iter_shiftBit_lxor (k : nat) (x y : Z) :
  Nat.iter k shiftBit (Z.lxor x y)
  = Z.lxor (Nat.iter k shiftBit x) (Nat.iter k shiftBit y).
Proof.
  induction k as [|k IH]; [reflexivity|].
  rewrite !Nat.iter_succ, IH. apply shiftBit_lxor.
Qed.

Lemma shiftBit_low (r : Z) : 0 <= r < 2 ^ 31 -> shiftBit r = 2 * r.
Proof.
  intros H. unfold shiftBit.
  rewrite Z.testbit_odd, Z.shiftr_div_pow2, Z.div_small by lia.
  cbn [Z.odd]. apply Z.mod_small. lia.
Qed.

Lemma iter_shiftBit_low (k : nat) (r : Z) :
  0 <= r -> r * 2 ^ Z.of_nat k < 2 ^ 32 ->
  Nat.iter k shiftBit r = r * 2 ^ Z.of_nat k.
Proof.
  intros Hr. induction k as [|k IH]; intros Hk.
  - cbn. lia.
  - rewrite Nat2Z.inj_succ, Z.pow_succ_r in * by lia.
    rewrite Nat.iter_succ, IH by lia.
    rewrite shiftBit_low by nia. lia.
Qed.

(** The table holds the remainders of the 256 one-byte messages. *)
Lemma table_entries :
  forallb (fun n =>
             let t := tableAt makeCRCTable (Z.of_nat n) in
             (t =? Nat.iter 8 shiftBit (Z.shiftl (Z.of_nat n) 24))
             && (0 <=? t) && (t <? 2 ^ 32))
          (seq 0 256) = true.
Proof. vm_compute. reflexivity. Qed.

Lemma tableAt_reference (n : Z) :
  0 <= n < 256 ->
  tableAt makeCRCTable n = Nat.iter 8 shiftBit (Z.shiftl n 24)
  /\ 0 <= tableAt makeCRCTable n < 2 ^ 32.
Proof.
  intros Hn. pose proof table_entries as H.
  rewrite forallb_forall in H. specialize (H (Z.to_nat n)).
  rewrite Z2Nat.id in H by lia.
  assert (Hin : In (Z.to_nat n) (seq 0 256)) by (apply in_seq; lia).
  apply H in Hin. cbv zeta in Hin.
  apply andb_prop in Hin as [Hin H3]. apply andb_prop in Hin as [H1 H2].
  split; lia.
Qed.

Lemma split_at_24 (u : Z) :
  u = Z.lxor (Z.shiftl (u / 2 ^ 24) 24) (u mod 2 ^ 24).
Proof.
  rewrite <- Z.shiftr_div_pow2, <- Z.land_ones by lia.
  apply Z.bits_inj'. intros n Hn.
  rewrite Z.lxor_spec, Z.land_spec, Z.shiftl_spec by lia.
  rewrite Z.testbit_ones_nonneg by lia.
  destruct (Z.ltb_spec n 24) as [Hlt|Hge].
  - rewrite (Z.testbit_neg_r _ (n - 24)) by lia.
    rewrite andb_true_r. reflexivity.
  - rewrite Z.shiftr_spec by lia. replace (n - 24 + 24) with n by lia.
    rewrite andb_false_r, xorb_false_r. reflexivity.
Qed.

(** One table-driven step of [_calculateCRC] is eight bitwise steps. *)
Lemma crc_step (crc : Z) (b : byte) :
  JS.toUint32
    (JS.bxor (JS.shl crc 8)
       (tableAt makeCRCTable
          (JS.band (JS.bxor (JS.ushr crc 24) (u8val b)) 0xFF)))
  = feedByte (JS.toUint32 crc) b.
Proof.
  pose proof (u8val_range b) as Hv.
  pose proof (toUint32_range crc) as Hu.
  rewrite crc_index by assumption.
  set (u := JS.toUint32 crc) in *. set (v := u8val b) in *.
  assert (Hhi : 0 <= u / 2 ^ 24 < 256).
  { split; [apply Z.div_pos; lia|apply Z.div_lt_upper_bound; lia]. }
  pose proof (lxor_range 8 _ _ ltac:(lia) Hhi Hv) as Hx.
  destruct (tableAt_reference _ Hx) as [Ht Htr].
  rewrite toUint32_bxor, toUint32_shl by lia. fold u.
  rewrite (toUint32_small (tableAt _ _)) by assumption.
  rewrite Ht. unfold feedByte. fold v.
  assert (E : Z.lxor u (Z.shiftl v 24)
              = Z.lxor (u mod 2 ^ 24) (Z.shiftl (Z.lxor (u / 2 ^ 24) v) 24)).
  { rewrite Z.shiftl_lxor.
    transitivity (Z.lxor (Z.lxor (Z.shiftl (u / 2 ^ 24) 24) (u mod 2 ^ 24))
                    (Z.shiftl v 24)).
    - f_equal. apply split_at_24.
    - bitwise. }
  rewrite E, iter_shiftBit_lxor.
  pose proof (Z.mod_pos_bound u (2 ^ 24) ltac:(lia)) as Hlo.
  rewrite (iter_shiftBit_low 8 (u mod 2 ^ 24)) by (change (2 ^ Z.of_nat 8) with 256; lia).
  change (2 ^ Z.of_nat 8) with 256. change (2 ^ 8) with 256.
  replace (2 ^ 32) with (2 ^ 24 * 256) by reflexivity.
  rewrite Z.mul_mod_distr_r by lia. reflexivity.
Qed.

End ReferenceCRC.

Section ChecksumLoop.

Import Reference.

Lemma crcUpdate_outside (i : nat) (b : byte) (crc : Z) :
  (i < 22 \/ 25 < i)%nat ->
  JS.toUint32 (crcUpdate makeCRCTable i b crc) = feedByte (JS.toUint32 crc) b.
Proof.
  intros Hi. unfold crcUpdate.
  replace ((22 <=? i)%nat && (i <=? 25)%nat) with false.
  - apply crc_step.
  - symmetry. apply andb_false_iff.
    destruct Hi; [left; apply Nat.leb_gt|right; apply Nat.leb_gt]; lia.
Qed.

Lemma crcUpdate_inside (i : nat) (b : byte) (crc : Z) :
  (22 <= i <= 25)%nat ->
  JS.toUint32 (crcUpdate makeCRCTable i b crc) = feedByte (JS.toUint32 crc) x00.
Proof.
  intros Hi. unfold crcUpdate.
  replace ((22 <=? i)%nat && (i <=? 25)%nat) with true.
  - apply (crc_step crc x00).
  - symmetry. apply andb_true_iff. split; apply Nat.leb_le; lia.
Qed.

Lemma crcLoop_app (tbl : list Z) (l k : list byte) : forall (i : nat) (crc : Z),
  crcLoop tbl i (l ++ k) crc
  = crcLoop tbl (i + length l) k (crcLoop tbl i l crc).
Proof.
  induction l as [|b l IH]; intros i crc.
  - cbn. now rewrite Nat.add_0_r.
  - cbn [app crcLoop length]. rewrite IH. f_equal. lia.
Qed.

Lemma crcLoop_outside (l : list byte) : forall (i : nat) (crc : Z),
  (i + length l <= 22 \/ 26 <= i)%nat ->
  JS.toUint32 (crcLoop makeCRCTable i l crc) = foldl feedByte (JS.toUint32 crc) l.
Proof.
  induction l as [|b l IH]; intros i crc Hi; [reflexivity|].
  cbn [crcLoop foldl length] in *.
  rewrite IH by lia. rewrite crcUpdate_outside by lia. reflexivity.
Qed.

Lemma crcLoop_inside (f : list byte) (crc : Z) :
  length f = 4%nat ->
  JS.toUint32 (crcLoop makeCRCTable 22 f crc)
  = foldl feedByte (JS.toUint32 crc) zeroField.
Proof.
  intros Hf. do 4 (destruct f as [|? f]; [discriminate|]).
  destruct f; [|discriminate].
  cbn [crcLoop foldl zeroField].
  rewrite !crcUpdate_inside by lia. reflexivity.
Qed.

Lemma calculateCRC_toUint32 (tbl : list Z) (buffer : list byte) :
  calculateCRC tbl buffer = JS.toUint32 (crcLoop tbl 0 buffer 0).
Proof. unfold calculateCRC. rewrite ushr_div by lia. apply Z.div_1_r. Qed.

Lemma calculateCRC_range (tbl : list Z) (buffer : list byte) :
  0 <= calculateCRC tbl buffer < 2 ^ 32.
Proof. rewrite calculateCRC_toUint32. apply toUint32_range. Qed.

(** The checksum engine computes the bitwise checksum of the buffer with
    the cells 22 to 25 read as zero. *)
Lemma calculateCRC_reference (a f r : list byte) :
  length a = 22%nat -> length f = 4%nat ->
  calculateCRC makeCRCTable (a ++ f ++ r) = crc32 (a ++ zeroField ++ r).
Proof.
  intros Ha Hf. rewrite calculateCRC_toUint32. unfold crc32.
  rewrite !crcLoop_app, Ha, Hf. cbn [Nat.add].
  rewrite crcLoop_outside by lia.
  rewrite crcLoop_inside by assumption.
  rewrite crcLoop_outside by lia.
  rewrite !foldl_app. reflexivity.
Qed.

Lemma pageWith_split (f : list byte) ser seq gran isLast packets :
  length f = 4%nat ->
  pageWith f ser seq gran isLast packets
  = take 22 (pageWith zeroField ser seq gran isLast packets)
    ++ f ++ drop 26 (pageWith zeroField ser seq gran isLast packets).
Proof.
  intros Hf. do 4 (destruct f as [|? f]; [discriminate|]).
  destruct f; [|discriminate]. reflexivity.
Qed.

Lemma length_pageWith_prefix ser seq gran isLast packets :
  length (take 22 (pageWith zeroField ser seq gran isLast packets)) = 22%nat.
Proof. reflexivity. Qed.

(** The checksum of a page does not depend on its checksum field, and is
    the bitwise checksum of the page with that field zero. *)
Lemma calculateCRC_pageWith (f : list byte) ser seq gran isLast packets :
  length f = 4%nat ->
  calculateCRC makeCRCTable (pageWith f ser seq gran isLast packets)
  = crc32 (pageWith zeroField ser seq gran isLast packets).
Proof.
  intros Hf. rewrite (pageWith_split f) by assumption.
  rewrite calculateCRC_reference by (assumption || apply length_pageWith_prefix).
  rewrite <- pageWith_split by reflexivity. reflexivity.
Qed.

(** The three readings of a finished page's checksum coincide. *)
Lemma page_checksum ser seq gran isLast packets :
  let page := pageOf makeCRCTable ser seq gran isLast packets in
  calculateCRC makeCRCTable page = checksumOf page
  /\ calculateCRC makeCRCTable page = crc32 (zeroChecksum page).
Proof.
  intros page. subst page.
  rewrite checksumOf_page, zeroChecksum_page.
  rewrite Z.mod_small by apply calculateCRC_range.
  unfold pageOf at 1 2.
  rewrite !calculateCRC_pageWith by (reflexivity || apply length_le_bytes).
  split; reflexivity.
Qed.

End ChecksumLoop.

(** ** Journals *)

Lemma accepted_flush (isLast : bool) (j : journal) :
  accepted (flushJournal isLast j) = accepted j.
Proof.
  unfold flushJournal, accepted.
  destruct (pending j) as [|x pend] eqn:E; [destruct isLast|];
    cbn [emitted pending]; rewrite ?E, ?map_app, ?concat_app; cbn [map concat pr_packets];
    rewrite ?app_nil_r; reflexivity.
Qed.

Lemma accepted_add (packetData : Uint8Array) (samples : Z) (j : journal) :
  accepted (addJournal packetData samples j) = accepted j ++ [(packetData, samples)].
Proof.
  unfold addJournal.
  destruct (255 <? _)%nat.
  - rewrite <- (accepted_flush false j). unfold accepted. cbn [emitted pending].
    now rewrite app_assoc.
  - unfold accepted. cbn [emitted pending]. now rewrite app_assoc.
Qed.

Lemma accepted_step (c : call) (j : journal) :
  accepted (stepJournal c j) = accepted j ++ passed [c].
Proof.
  destruct c; cbn [stepJournal passed flat_map];
    rewrite ?accepted_add, ?accepted_flush, ?app_nil_r; reflexivity.
Qed.

Lemma passed_app (l k : list call) : passed (l ++ k) = passed l ++ passed k.
Proof. unfold passed. apply flat_map_app. Qed.

Lemma runJournal_app (l k : list call) (j : journal) :
  runJournal (l ++ k) j = runJournal k (runJournal l j).
Proof. unfold runJournal. apply foldl_app. Qed.

(** No packet is dropped or reordered. *)
Lemma accepted_run (calls : list call) : forall (j : journal),
  accepted (runJournal calls j) = accepted j ++ passed calls.
Proof.
  induction calls as [|c calls IH]; intros j.
  - cbn. now rewrite app_nil_r.
  - change (runJournal (c :: calls) j) with (runJournal calls (stepJournal c j)).
    rewrite IH, accepted_step. change (c :: calls) with ([c] ++ calls).
    rewrite passed_app, app_assoc. reflexivity.
Qed.

Lemma emitted_flush (isLast : bool) (j : journal) :
  exists rs, emitted (flushJournal isLast j) = emitted j ++ rs.
Proof.
  unfold flushJournal.
  destruct (pending j) as [|x pend]; [destruct isLast|]; cbn [emitted];
    first [now eexists | exists []; now rewrite app_nil_r].
Qed.

Lemma emitted_step (c : call) (j : journal) :
  exists rs, emitted (stepJournal c j) = emitted j ++ rs.
Proof.
  destruct c as [packetData samples|isLast|]; cbn [stepJournal];
    try apply emitted_flush.
  unfold addJournal. destruct (255 <? _)%nat; cbn [emitted].
  - apply emitted_flush.
  - exists []. now rewrite app_nil_r.
Qed.

(** Pages are only ever appended. *)
Lemma emitted_run (calls : list call) : forall (j : journal),
  exists rs, emitted (runJournal calls j) = emitted j ++ rs.
Proof.
  induction calls as [|c calls IH]; intros j.
  - exists []. cbn. now rewrite app_nil_r.
  - change (runJournal (c :: calls) j) with (runJournal calls (stepJournal c j)).
    destruct (IH (stepJournal c j)) as [rs Hrs].
    destruct (emitted_step c j) as [rs0 Hrs0].
    exists (rs0 ++ rs). rewrite Hrs, Hrs0, app_assoc. reflexivity.
Qed.

(** ** The pages of a journal *)

Lemma render_Forall (P : Uint8Array -> Prop) (tbl : list Z) (ser : Z)
    (rs : list pageRecord) :
  (forall seq gran isLast packets, P (pageOf tbl ser seq gran isLast packets)) ->
  forall seq gran, Forall P (render tbl ser seq gran rs).
Proof.
  intros HP. induction rs as [|r rs IH]; intros seq gran; cbn [render].
  - constructor.
  - constructor; [apply HP|apply IH].
Qed.

Lemma render_lookup (tbl : list Z) (ser : Z) (rs : list pageRecord) :
  forall (seq : nat) (gran : Z) (k : nat) (page : Uint8Array),
  render tbl ser seq gran rs !! k = Some page ->
  exists r, rs !! k = Some r
            /\ page = pageOf tbl ser (seq + k)
                        (granuleAfter gran (concat (map pr_packets (take (S k) rs))))
                        (pr_isLast r) (map fst (pr_packets r)).
Proof.
  induction rs as [|r rs IH]; intros seq gran k page H; [discriminate|].
  destruct k as [|k]; cbn [render] in H.
  - injection H as <-. exists r. split; [reflexivity|].
    cbn [take map concat]. rewrite Nat.add_0_r, app_nil_r. reflexivity.
  - apply IH in H as (r' & Hr' & ->). exists r'. split; [exact Hr'|].
    cbn [take map concat]. rewrite granuleAfter_app, Nat.add_succ_comm.
    reflexivity.
Qed.

(** ** Sessions *)

(** The pages of a session are the pages of its journal, one for one. *)
Lemma session_pages (rate chans random : Z) (calls : list call) :
  exists m j,
    session rate chans random calls = Ok m
    /\ sessionJ rate chans random calls = Ok (m, j)
    /\ j = runJournal calls (initialJournal rate chans)
    /\ consistent random m j
    /\ pages m = render makeCRCTable random 0 0 (emitted j)
    /\ length (pages m) = length (emitted j)
    /\ exists rs, emitted j = emitted (initialJournal rate chans) ++ rs.
Proof.
  destruct (session_journal rate chans random calls) as (m & Hs & HJ & C).
  exists m, (runJournal calls (initialJournal rate chans)).
  split; [exact Hs|]. split; [exact HJ|]. split; [reflexivity|].
  split; [exact C|]. split; [apply C|]. split.
  - rewrite (cons_pages _ _ _ C). apply length_render.
  - apply emitted_run.
Qed.

Lemma headerType_flags (first isLast : bool) :
  Z.testbit (headerType first isLast) 1 = first
  /\ Z.testbit (headerType first isLast) 2 = isLast.
Proof. destruct first, isLast; split; reflexivity. Qed.

(** C1.  For every page emitted in a session, running the checksum engine
    (table of 256 entries, polynomial 0x04C11DB7, most significant bit
    first, zero initial value) over the whole page, the cells 22 to 25
    counting as zero, gives the 32-bit little-endian value stored in cells 22
    to 25; and it is the bitwise checksum of the page with those four
    cells zeroed. *)
Theorem checksum_correct (rate chans random : Z) (calls : list call) :
  exists m,
    session rate chans random calls = Ok m
    /\ crcTable m = makeCRCTable
    /\ length (crcTable m) = 256%nat
    /\ Forall (fun page =>
                 (27 <= length page)%nat
                 /\ calculateCRC (crcTable m) page = checksumOf page
                 /\ calculateCRC (crcTable m) page
                    = Reference.crc32 (zeroChecksum page))
              (pages m).
Proof.
  destruct (session_pages rate chans random calls)
    as (m & j & Hs & _ & _ & C & Hp & _).
  exists m. split; [exact Hs|].
  rewrite (cons_table _ _ _ C). split; [reflexivity|]. split; [reflexivity|].
  rewrite Hp. apply render_Forall. intros seq gran isLast packets.
  split; [rewrite length_page; lia|].
  apply page_checksum.
Qed.

Lemma render_sequence (tbl : list Z) (ser : Z) (rs : list pageRecord) :
  forall (seq0 : nat) (gran : Z),
  map sequenceOf (render tbl ser seq0 gran rs)
  = map (fun k => Z.of_nat k mod 2 ^ 32) (seq seq0 (length rs)).
Proof.
  induction rs as [|r rs IH]; intros seq0 gran; [reflexivity|].
  cbn [render map length seq]. rewrite sequenceOf_page, IH. reflexivity.
Qed.

(** C5.  The pages of a session, the two header pages included, carry the
    page sequence numbers 0, 1, ..., N-1 in emission order (as 32-bit
    fields: reduced modulo 2^32, which changes nothing for a session of at
    most 2^32 pages), and the counter of the muxer is N. *)
Theorem sequence_numbers (rate chans random : Z) (calls : list call) :
  exists m,
    session rate chans random calls = Ok m
    /\ (2 <= length (pages m))%nat
    /\ pageSequence m = length (pages m)
    /\ map sequenceOf (pages m)
       = map (fun k => Z.of_nat k mod 2 ^ 32) (seq 0 (length (pages m)))
    /\ (Z.of_nat (length (pages m)) <= 2 ^ 32 ->
        map sequenceOf (pages m) = map Z.of_nat (seq 0 (length (pages m)))).
Proof.
  destruct (session_pages rate chans random calls)
    as (m & j & Hs & _ & _ & C & Hp & Hlen & rs & Hrs).
  exists m. split; [exact Hs|].
  assert (Hseq : map sequenceOf (pages m)
                 = map (fun k => Z.of_nat k mod 2 ^ 32) (seq 0 (length (pages m)))).
  { rewrite Hlen, Hp. apply render_sequence. }
  split; [|split; [|split; [exact Hseq|]]].
  - rewrite Hlen, Hrs, length_app. simpl. lia.
  - rewrite (cons_sequence _ _ _ C). symmetry. exact Hlen.
  - intros Hsmall. rewrite Hseq. apply map_ext_in. intros k Hk.
    apply in_seq in Hk. apply Z.mod_small. lia.
Qed.

Lemma sequence_numbers_witness :
  exists m,
    session 48000 2 7 [AddPacket [x01] 960; GetBlob] = Ok m
    /\ Z.of_nat (length (pages m)) <= 2 ^ 32
    /\ map sequenceOf (pages m) = [0; 1; 2].
Proof.
  destruct (sequence_numbers 48000 2 7 [AddPacket [x01] 960; GetBlob])
    as (m & Hs & _ & _ & _ & Hexact).
  exists m. split; [exact Hs|].
  assert (Hlen : length (pages m) = 3%nat)
    by (vm_compute in Hs; injection Hs as <-; reflexivity).
  assert (Hsmall : Z.of_nat (length (pages m)) <= 2 ^ 32)
    by (rewrite Hlen; vm_compute; discriminate).
  split; [exact Hsmall|].
  rewrite (Hexact Hsmall), Hlen. reflexivity.
Defined.

(** C6.  Every page of a session begins with the capture pattern "OggS";
    its header-type bit 0x02 is set exactly when it is the first page of
    the session, which holds the identification header alone; and its bit
    0x04 is set exactly when the flush that emitted it was terminal. *)
Theorem page_wellformed (rate chans random : Z) (calls : list call) :
  exists m j,
    session rate chans random calls = Ok m
    /\ sessionJ rate chans random calls = Ok (m, j)
    /\ length (pages m) = length (emitted j)
    /\ emitted j !! 0%nat
       = Some (mkPageRecord [(idHeaderBytes rate chans, 0)] false)
    /\ forall (k : nat) (page : Uint8Array) (r : pageRecord),
         pages m !! k = Some page -> emitted j !! k = Some r ->
         capturePatternOf page = [x4f; x67; x67; x53]
         /\ (flagBOS page = true <-> k = 0%nat)
         /\ (flagEOS page = true <-> pr_isLast r = true).
Proof.
  destruct (session_pages rate chans random calls)
    as (m & j & Hs & HJ & _ & C & Hp & Hlen & rs & Hrs).
  exists m, j. repeat split; try assumption.
  - rewrite Hrs. reflexivity.
  - rewrite Hp in H. apply render_lookup in H as (r' & Hr' & ->).
    apply capturePatternOf_page.
  - rewrite Hp in H. apply render_lookup in H as (r' & Hr' & ->).
    unfold flagBOS. rewrite headerTypeOf_page.
    rewrite (proj1 (headerType_flags _ _)). cbn [Nat.add].
    intros E. apply Nat.eqb_eq, E.
  - intros ->. rewrite Hp in H. apply render_lookup in H as (r' & Hr' & ->).
    unfold flagBOS. rewrite headerTypeOf_page.
    rewrite (proj1 (headerType_flags _ _)). reflexivity.
  - rewrite Hp in H. apply render_lookup in H as (r' & Hr' & ->).
    unfold flagEOS. rewrite headerTypeOf_page.
    rewrite (proj2 (headerType_flags _ _)). congruence.
  - rewrite Hp in H. apply render_lookup in H as (r' & Hr' & ->).
    unfold flagEOS. rewrite headerTypeOf_page.
    rewrite (proj2 (headerType_flags _ _)). congruence.
Qed.

Lemma page_wellformed_witness :
  exists m j page r,
    sessionJ 48000 2 7 [AddPacket [x01] 960; GetBlob] = Ok (m, j)
    /\ pages m !! 2%nat = Some page
    /\ emitted j !! 2%nat = Some r
    /\ capturePatternOf page = [x4f; x67; x67; x53]
    /\ flagBOS page = false
    /\ flagEOS page = true
    /\ pr_isLast r = true.
Proof.
  destruct (page_wellformed 48000 2 7 [AddPacket [x01] 960; GetBlob])
    as (m & j & Hs & HJ & Hlen & _ & Hpages).
  assert (HJ' := HJ). vm_compute in HJ'.
  destruct (pages m !! 2%nat) as [page|] eqn:Hpage;
    [|injection HJ' as <- <-; discriminate Hpage].
  destruct (emitted j !! 2%nat) as [r|] eqn:Hr;
    [|injection HJ' as <- <-; discriminate Hr].
  destruct (Hpages 2%nat page r Hpage Hr) as (Hcap & Hbos & Heos).
  assert (Hlast : pr_isLast r = true)
    by (injection HJ' as <- <-; injection Hr as <-; reflexivity).
  exists m, j, page, r. split; [exact HJ|]. split; [exact Hpage|].
  split; [exact Hr|]. split; [exact Hcap|]. split; [|split; [|exact Hlast]].
  - destruct (flagBOS page); [|reflexivity].
    destruct Hbos as [Hbos _]. discriminate (Hbos eq_refl).
  - apply Heos, Hlast.
Defined.

Lemma session_nil (rate chans random : Z) :
  session rate chans random [] = newMuxer rate chans random.
Proof. unfold session. destruct (newMuxer rate chans random); reflexivity. Qed.

Lemma session_snoc (rate chans random : Z) (calls : list call) (c : call) :
  session rate chans random (calls ++ [c])
  = let* m := session rate chans random calls in step c m.
Proof.
  unfold session. destruct (newMuxer rate chans random) as [m0|]; [|reflexivity].
  cbn [bind]. revert m0. induction calls as [|c0 calls IH]; intros m0.
  - cbn. destruct (step c m0); reflexivity.
  - cbn [app run]. destruct (step c0 m0); [apply IH|reflexivity].
Qed.

(** A terminal flush in a state reached by a session. *)
Lemma terminal_flush (random : Z) (m : OggOpusMuxer) (j : journal) :
  consistent random m j ->
  let page := pageOf makeCRCTable random (length (emitted j))
                (granuleAfter 0 (accepted j)) true (map fst (pending j)) in
  flushPage true m = Ok (flushed page m)
  /\ getBlob m = Ok (flushed page m, concat (pages m ++ [page]))
  /\ flagEOS page = true.
Proof.
  intros C page.
  assert (Hf : flushPage true m = Ok (flushed page m)).
  { rewrite flushPage_emits by (apply C || auto). subst page.
    rewrite (cons_table _ _ _ C), (cons_serial _ _ _ C), (cons_sequence _ _ _ C),
      (cons_granule _ _ _ C), (cons_buffer _ _ _ C). reflexivity. }
  split; [exact Hf|]. split.
  - unfold getBlob. rewrite Hf. reflexivity.
  - unfold flagEOS. subst page. rewrite headerTypeOf_page.
    apply headerType_flags.
Qed.

(** C9.  A non-terminal flush of an empty pending buffer returns the muxer
    as it was.  A terminal flush emits a page in every state a session can
    reach, also when nothing is pending, and that page has the
    end-of-stream flag; so the stream that [getBlob] returns ends with a
    page whose end-of-stream flag is set. *)
Theorem flush_empty_or_terminal :
  (forall m : OggOpusMuxer, packetBuffer m = [] -> flushPage false m = Ok m)
  /\ (forall (rate chans random : Z) (calls : list call),
        exists m page,
          session rate chans random calls = Ok m
          /\ flushPage true m = Ok (flushed page m)
          /\ pages (flushed page m) = pages m ++ [page]
          /\ getBlob m = Ok (flushed page m, concat (pages m) ++ page)
          /\ flagEOS page = true
          /\ (packetBuffer m = [] -> length page = 27%nat)).
Proof.
  split; [exact flushPage_idle|].
  intros rate chans random calls.
  destruct (session_pages rate chans random calls)
    as (m & j & Hs & _ & _ & C & _).
  destruct (terminal_flush random m j C) as (Hf & Hg & He).
  eexists m, _. split; [exact Hs|]. split; [exact Hf|]. split; [reflexivity|].
  split; [|split; [exact He|]].
  - rewrite Hg, concat_app. cbn [concat]. rewrite app_nil_r. reflexivity.
  - intros Hempty. rewrite (cons_buffer _ _ _ C) in Hempty.
    rewrite length_page, Hempty. reflexivity.
Qed.

Lemma flush_empty_or_terminal_witness :
  packetBuffer (initialMuxer 48000 2 7) = []
  /\ flushPage false (initialMuxer 48000 2 7) = Ok (initialMuxer 48000 2 7).
Proof.
  split; [reflexivity|].
  apply (proj1 flush_empty_or_terminal). reflexivity.
Defined.

(** C7, as the code has it.  When [getBlob] is called right after
    construction, the stream has three pages, and the third consists of the
    27-byte header alone: its segment count is 0, it has no segment table
    and no payload, its end-of-stream flag is set and its
    beginning-of-stream flag is not. *)
Theorem empty_stream_third_page (rate chans random : Z) :
  exists m blob p0 p1 p2,
    (let* m0 := newMuxer rate chans random in getBlob m0) = Ok (m, blob)
    /\ pages m = [p0; p1; p2]
    /\ blob = p0 ++ p1 ++ p2
    /\ length p2 = 27%nat
    /\ segmentCountOf p2 = 0
    /\ sequenceOf p2 = 2
    /\ flagEOS p2 = true
    /\ flagBOS p2 = false.
Proof.
  destruct (session_pages rate chans random [])
    as (m0 & j & Hs & _ & -> & C & Hp & _).
  rewrite session_nil in Hs. rewrite Hs. cbn [bind].
  destruct (terminal_flush random m0 _ C) as (_ & Hg & He).
  rewrite Hg. cbn [runJournal foldl initialJournal emitted] in Hp.
  set (p2 := pageOf _ _ _ _ _ _) in *.
  cbn [render] in Hp.
  eexists (flushed p2 m0), _, _, _, p2. split; [reflexivity|].
  split; [cbn [flushed pages]; rewrite Hp; reflexivity|].
  split; [rewrite Hp; cbn [app concat]; now rewrite app_nil_r|].
  subst p2. split; [apply length_page|]. split; [apply segmentCountOf_page|].
  split; [apply sequenceOf_page|]. split; [exact He|].
  unfold flagBOS. rewrite headerTypeOf_page. apply headerType_flags.
Qed.

(** C7 as the specification has it fails: for the sample rate 48000, two
    channels and the serial 0, the third page is not the 27-byte header
    followed by one segment byte. *)
Lemma empty_stream_third_page_counterexample :
  ~ (exists m blob page,
       (let* m0 := newMuxer 48000 2 0 in getBlob m0) = Ok (m, blob)
       /\ pages m !! 2%nat = Some page
       /\ length page = 28%nat
       /\ segmentCountOf page = 1
       /\ page !! 27%nat = Some x00).
Proof.
  intros (m & blob & page & H & Hp & Hl & _).
  vm_compute in H. injection H as <- <-.
  vm_compute in Hp. injection Hp as <-.
  discriminate Hl.
Qed.

(** C8, as the code has it.  Construction has no error path at all: for
    every sample rate and channel count, zero and negative ones included,
    the constructor returns a muxer with the two header pages; the
    identification packet carries the channel count modulo 2^8 and the
    sample rate modulo 2^32. *)
Theorem construction_total (rate chans random : Z) :
  exists m,
    newMuxer rate chans random = Ok m
    /\ sampleRate m = rate /\ channels m = chans
    /\ pages m = [pageOf makeCRCTable random 0 0 false [idHeaderBytes rate chans];
                  pageOf makeCRCTable random 1 0 false [commentHeaderBytes]]
    /\ u8val <$> idHeaderBytes rate chans !! 9%nat = Some (chans mod 2 ^ 8)
    /\ le_value (field 12 4 (idHeaderBytes rate chans)) = rate mod 2 ^ 32.
Proof.
  destruct (session_pages rate chans random [])
    as (m & j & Hs & _ & -> & C & Hp & _).
  rewrite session_nil in Hs. exists m. split; [exact Hs|].
  assert (Hfields : sampleRate m = rate /\ channels m = chans).
  { clear - Hs. unfold newMuxer, writeIdHeader, writeCommentHeader in Hs.
    assert (Hflush : forall b m1 m2, flushPage b m1 = Ok m2 ->
                     sampleRate m2 = sampleRate m1 /\ channels m2 = channels m1).
    { intros b m1 m2. unfold flushPage.
      destruct (_ && _); [intros [= <-]; auto|].
      destruct (buildPage b m1); cbn [bind]; [intros [= <-]; auto|discriminate]. }
    assert (Hadd : forall d s m1 m2, addPacket d s m1 = Ok m2 ->
                   sampleRate m2 = sampleRate m1 /\ channels m2 = channels m1).
    { intros d s m1 m2. unfold addPacket.
      destruct (255 <? _)%nat.
      - destruct (flushPage false m1) as [m'|] eqn:E; cbn [bind]; [|discriminate].
        intros [= <-]. apply Hflush in E. exact E.
      - cbn [bind]. intros [= <-]. auto. }
    destruct (idHeader _); cbn [bind] in Hs; [|discriminate].
    destruct (addPacket _ 0 _) as [m1|] eqn:E1; cbn [bind] in Hs; [|discriminate].
    destruct (flushPage false m1) as [m2|] eqn:E2; cbn [bind] in Hs; [|discriminate].
    destruct commentHeader; cbn [bind] in Hs; [|discriminate].
    destruct (addPacket _ 0 m2) as [m3|] eqn:E3; cbn [bind] in Hs; [|discriminate].
    apply Hadd in E1, E3. apply Hflush in E2, Hs.
    cbn [initialMuxer sampleRate channels] in E1.
    destruct E1, E2, E3, Hs. split; congruence. }
  split; [apply Hfields|]. split; [apply Hfields|]. split; [exact Hp|].
  split.
  - cbn. rewrite u8val_u8. reflexivity.
  - change (field 12 4 (idHeaderBytes rate chans)) with (le_bytes 4 (rate mod 2 ^ 32)).
    rewrite le_value_le_bytes. change (256 ^ Z.of_nat 4) with (2 ^ 32).
    apply Z.mod_mod. lia.
Qed.

(** C8 as the specification has it fails: a zero sample rate and a negative
    channel count are accepted. *)
Lemma construction_total_counterexample :
  succeeds (newMuxer 0 (-1) 0) = true.
Proof. vm_compute. reflexivity. Qed.

(** ** Granule positions *)

Lemma samplesOf_nonneg (l : list (Uint8Array * Z)) :
  Forall (fun ps => 0 <= snd ps) l -> 0 <= samplesOf l.
Proof.
  unfold samplesOf. induction 1 as [|x l Hx Hl IH]; simpl; lia.
Qed.

Lemma samplesOf_prefix (l1 l2 : list (Uint8Array * Z)) :
  Forall (fun ps => 0 <= snd ps) (l1 ++ l2) ->
  0 <= samplesOf l1 <= samplesOf (l1 ++ l2).
Proof.
  intros H. apply Forall_app in H as [H1 H2].
  apply samplesOf_nonneg in H1, H2. rewrite samplesOf_app. lia.
Qed.






(** Within the exact range the rounding of [JS.add] does nothing. *)
Lemma toNumber_exact (z : Z) : Z.abs z <= exactRange -> JS.toNumber z = z.
Proof.
  unfold exactRange, JS.toNumber. intros H.
  destruct (Z.ltb_spec (Z.abs z) (2 ^ 53)) as [|Hge]; [reflexivity|].
  assert (Hz : z = 2 ^ 53 \/ z = - 2 ^ 53) by lia.
  destruct Hz as [-> | ->]; vm_compute; reflexivity.
Qed.

Lemma granuleAfter_exact (l : list (Uint8Array * Z)) :
  forall g : Z,
    Forall (fun ps => 0 <= snd ps) l ->
    0 <= g ->
    g + samplesOf l <= exactRange ->
    granuleAfter g l = g + samplesOf l.
Proof.
  induction l as [|x l IH]; intros g Hpos Hg Hmax.
  - unfold samplesOf. cbn. lia.
  - apply Forall_cons_1 in Hpos as [Hx Hl].
    pose proof (samplesOf_nonneg l Hl) as Hsum.
    change (samplesOf (x :: l)) with (snd x + samplesOf l) in *.
    change (granuleAfter g (x :: l)) with (granuleAfter (JS.add g (snd x)) l).
    unfold JS.add. rewrite toNumber_exact by lia.
    rewrite IH by (auto; lia). lia.
Qed.

Lemma granuleAfter_initial (rate chans : Z) :
  granuleAfter 0 (accepted (initialJournal rate chans)) = 0.
Proof. reflexivity. Qed.

(** The running total of a session whose sample counts are non-negative and
    sum to at most 2^53 is the exact sum at every point of the session. *)
Lemma granule_exact (rate chans : Z) (packets rest : list (Uint8Array * Z)) :
  Forall (fun ps => 0 <= snd ps) (packets ++ rest) ->
  samplesOf (packets ++ rest) <= exactRange ->
  granuleAfter 0 (accepted (initialJournal rate chans) ++ packets)
  = samplesOf packets
  /\ 0 <= samplesOf packets <= samplesOf (packets ++ rest).
Proof.
  intros Hpos Hmax. pose proof (samplesOf_prefix _ _ Hpos) as Hpre.
  split; [|exact Hpre].
  rewrite granuleAfter_app, granuleAfter_initial.
  apply Forall_app in Hpos as [Hpos _].
  rewrite granuleAfter_exact by (auto; lia). lia.
Qed.

Lemma exactRange_field : exactRange < 2 ^ 64.
Proof. vm_compute. reflexivity. Qed.




(** ** Implicit flushes *)

(** [addPacket] when the packet does not fit: the pending packets go out as
    a page first, then the packet starts the next buffer. *)
Lemma addPacket_flushes (packetData : Uint8Array) (samples : Z) (m : OggOpusMuxer) :
  buffersAgree m ->
  (255 < segmentsInBuffer m + segmentsOf (length packetData))%nat ->
  packetBuffer m <> [] ->
  addPacket packetData samples m
  = Ok (acceptPacket packetData (length packetData)
          (segmentsOf (length packetData)) samples
          (flushed (pageOf (crcTable m) (serial m) (pageSequence m)
                      (granulePosition m) false (packetBuffer m)) m)).
Proof.
  intros Ha Hfull Hne. unfold addPacket. fold (segmentsOf (length packetData)).
  destruct (Nat.ltb_spec 255 (segmentsInBuffer m + segmentsOf (length packetData)));
    [|lia].
  rewrite flushPage_emits by auto. reflexivity.
Qed.

Lemma page_payload tbl ser seq gran isLast (packets : list Uint8Array) :
  drop (27 + sum_list (map segmentsOf (map length packets)))
    (pageOf tbl ser seq gran isLast packets)
  = concat packets.
Proof.
  unfold pageOf, pageWith. rewrite app_assoc.
  apply drop_app_length'.
  rewrite length_app, length_pageHeader, length_concat_lacing
    by apply length_le_bytes.
  reflexivity.
Qed.

Lemma page_segment_table tbl ser seq gran isLast (packets : list Uint8Array) :
  field 27 (sum_list (map segmentsOf (map length packets)))
    (pageOf tbl ser seq gran isLast packets)
  = concat (map lacing (map length packets)).
Proof.
  unfold field, pageOf, pageWith.
  rewrite drop_app_length' by (rewrite length_pageHeader; auto using length_le_bytes).
  apply take_app_length'. symmetry. apply length_concat_lacing.
Qed.




(** ** The segment budget *)

Lemma segmentsIn_nil : segmentsIn [] = 0%nat.
Proof. reflexivity. Qed.

Lemma segmentsIn_single (packetData : Uint8Array) (samples : Z) :
  segmentsIn [(packetData, samples)] = segmentsOf (length packetData).
Proof. unfold segmentsIn. cbn [map fst]. apply Nat.add_0_r. Qed.

Lemma withinBudget_flush (isLast : bool) (j : journal) :
  withinBudget j -> withinBudget (flushJournal isLast j).
Proof.
  intros [Hp He]. unfold flushJournal.
  destruct (pending j) as [|x pend] eqn:E; [destruct isLast|].
  - split; cbn [pending emitted]; [cbn; lia|].
    apply Forall_app. split; [exact He|]. constructor; [|constructor]. cbn. lia.
  - split; [rewrite E; cbn; lia|exact He].
  - split; cbn [pending emitted]; [cbn; lia|].
    apply Forall_app. split; [exact He|]. constructor; [|constructor]. exact Hp.
Qed.

Lemma withinBudget_add (packetData : Uint8Array) (samples : Z) (j : journal) :
  fitsPage (packetData, samples) ->
  withinBudget j -> withinBudget (addJournal packetData samples j).
Proof.
  unfold fitsPage. cbn [fst]. intros Hfit Hj. unfold addJournal.
  destruct (Nat.ltb_spec 255 (segmentsIn (pending j) + segmentsOf (length packetData))).
  - pose proof (withinBudget_flush false j Hj) as [_ He].
    split; cbn [pending emitted]; [|exact He].
    assert (Hpend : pending (flushJournal false j) = []).
    { unfold flushJournal. destruct (pending j) eqn:E; [exact E|reflexivity]. }
    rewrite Hpend. cbn [app]. rewrite segmentsIn_single. lia.
  - destruct Hj as [Hp He]. split; cbn [pending emitted]; [|exact He].
    rewrite segmentsIn_app, segmentsIn_single. lia.
Qed.

Lemma withinBudget_run (calls : list call) : forall (j : journal),
  Forall fitsPage (passed calls) ->
  withinBudget j -> withinBudget (runJournal calls j).
Proof.
  induction calls as [|c calls IH]; intros j Hfit Hj; [exact Hj|].
  change (runJournal (c :: calls) j) with (runJournal calls (stepJournal c j)).
  change (c :: calls) with ([c] ++ calls) in Hfit.
  rewrite passed_app in Hfit. apply Forall_app in Hfit as [Hc Hrest].
  apply IH; [exact Hrest|].
  destruct c as [packetData samples|isLast|]; cbn [stepJournal].
  - apply withinBudget_add; [|exact Hj]. cbn in Hc. now inversion Hc.
  - apply withinBudget_flush, Hj.
  - apply withinBudget_flush, Hj.
Qed.

Lemma withinBudget_initial (rate chans : Z) : withinBudget (initialJournal rate chans).
Proof.
  split; [cbn; lia|].
  constructor; [|constructor; [|constructor]]; cbn [pr_packets]; vm_compute; lia.
Qed.

(** Packets below 64,770 bytes fit; the exact bound is 65,024 bytes. *)
Lemma fitsPage_bound (packetData : Uint8Array) (samples : Z) :
  fitsPage (packetData, samples) <-> Z.of_nat (length packetData) <= 65024.
Proof.
  unfold fitsPage, segmentsOf. cbn [fst].
  pose proof (Nat.div_mod_eq (length packetData) 255) as Hdm.
  pose proof (Nat.mod_upper_bound (length packetData) 255 ltac:(lia)) as Hlt.
  lia.
Qed.

(** C3.  When every packet passed to [addPacket] needs at most 255 lacing
    values (as every packet below 64,770 bytes does), the pending segment
    count is at most 255 after every call, every emitted page has at most
    255 segments and says so in its segment-count byte, and a packet that
    would push the pending count beyond 255 makes [addPacket] flush the
    pending packets as a non-terminal page before it accepts the packet. *)
Theorem segment_budget (rate chans random : Z) (calls : list call) :
  Forall fitsPage (passed calls) ->
  exists m j,
    session rate chans random calls = Ok m
    /\ sessionJ rate chans random calls = Ok (m, j)
    /\ (segmentsInBuffer m <= 255)%nat
    /\ (forall (k : nat) (page : Uint8Array) (r : pageRecord),
          pages m !! k = Some page -> emitted j !! k = Some r ->
          (segmentsIn (pr_packets r) <= 255)%nat
          /\ segmentCountOf page = Z.of_nat (segmentsIn (pr_packets r))
          /\ segmentCountOf page <= 255)
    /\ (forall (packetData : Uint8Array) (samples : Z),
          fitsPage (packetData, samples) ->
          exists m',
            addPacket packetData samples m = Ok m'
            /\ (segmentsInBuffer m' <= 255)%nat
            /\ ((segmentsInBuffer m + segmentsOf (length packetData) <= 255)%nat ->
                pages m' = pages m
                /\ packetBuffer m' = packetBuffer m ++ [packetData])
            /\ ((255 < segmentsInBuffer m + segmentsOf (length packetData))%nat ->
                exists page,
                  pages m' = pages m ++ [page]
                  /\ flagEOS page = false
                  /\ drop (27 + segmentsInBuffer m) page = concat (packetBuffer m)
                  /\ segmentCountOf page = Z.of_nat (segmentsInBuffer m)
                  /\ packetBuffer m' = [packetData]
                  /\ segmentsInBuffer m' = segmentsOf (length packetData))).
Proof.
  intros Hfit.
  destruct (session_pages rate chans random calls)
    as (m & j & Hs & HJ & Hj & C & Hp & Hlen & rs & Hrs).
  assert (Hbudget : withinBudget j).
  { rewrite Hj. apply withinBudget_run; [exact Hfit|apply withinBudget_initial]. }
  destruct Hbudget as [Hpend Hemitted].
  pose proof (segmentsInBuffer_journal _ _ _ C) as Hseg.
  exists m, j. split; [exact Hs|]. split; [exact HJ|].
  split; [lia|]. split.
  - intros k page r Hk Hr. rewrite Hp in Hk.
    apply render_lookup in Hk as (r' & Hr' & ->).
    assert (r' = r) by congruence. subst r'.
    rewrite Forall_forall in Hemitted.
    assert (Hr255 : (segmentsIn (pr_packets r) <= 255)%nat).
    { apply Hemitted. apply list_elem_of_In. eapply list_elem_of_lookup_2, Hr. }
    rewrite segmentCountOf_page. fold (segmentsIn (pr_packets r)).
    rewrite Z.mod_small by lia. repeat split; lia.
  - intros packetData samples Hpacket. unfold fitsPage in Hpacket. cbn [fst] in Hpacket.
    pose proof (cons_agree _ _ _ C) as Ha.
    destruct (Nat.ltb_spec 255 (segmentsInBuffer m + segmentsOf (length packetData)))
      as [Hfull|Hroom].
    + assert (Hne : packetBuffer m <> []).
      { intros E. destruct Ha as [Hsz Hsg]. rewrite Hsz, E in Hsg. cbn in Hsg. lia. }
      eexists. split; [apply addPacket_flushes; assumption|].
      cbn [acceptPacket flushed pages segmentsInBuffer packetBuffer app Nat.add].
      split; [lia|]. split; [lia|]. intros _.
      eexists. split; [reflexivity|]. split.
      * unfold flagEOS. rewrite headerTypeOf_page. apply headerType_flags.
      * split.
        { destruct Ha as [Hsz Hsg]. rewrite Hsg, Hsz. apply page_payload. }
        split; [|split; reflexivity].
        rewrite segmentCountOf_page. destruct Ha as [Hsz Hsg].
        rewrite <- Hsz, <- Hsg. apply Z.mod_small. lia.
    + eexists. split.
      * unfold addPacket. fold (segmentsOf (length packetData)).
        destruct (Nat.ltb_spec 255 (segmentsInBuffer m + segmentsOf (length packetData)));
          [lia|]. reflexivity.
      * cbn [acceptPacket pages segmentsInBuffer packetBuffer bind].
        split; [lia|]. split; [intros _; split; reflexivity|lia].
Qed.

Lemma segment_budget_witness :
  Forall fitsPage (passed (repeat (AddPacket [x01] 960) 256))
  /\ exists m,
       session 48000 2 7 (repeat (AddPacket [x01] 960) 256) = Ok m
       /\ (segmentsInBuffer m <= 255)%nat.
Proof.
  assert (H : Forall fitsPage (passed (repeat (AddPacket [x01] 960) 256))).
  { apply Forall_forall. intros ps Hin. unfold passed in Hin.
    apply in_flat_map in Hin as (c & Hc & Hin). apply repeat_spec in Hc. subst c.
    destruct Hin as [<-|[]]. unfold fitsPage. vm_compute. lia. }
  split; [exact H|].
  destruct (segment_budget 48000 2 7 (repeat (AddPacket [x01] 960) 256) H)
    as (m & j & Hs & _ & Hseg & _).
  exists m. split; [exact Hs|exact Hseg].
Defined.

(** ** Lacing values *)

Lemma lacing_values (size : nat) : map u8val (lacing size) = lacingValues size.
Proof.
  unfold lacing, lacingValues. rewrite map_app. f_equal.
  - induction (size / 255)%nat as [|n IH]; [reflexivity|].
    cbn [replicate repeat map]. rewrite IH. reflexivity.
  - cbn [map]. rewrite u8val_u8_small; [reflexivity|].
    pose proof (Nat.mod_upper_bound size 255). lia.
Qed.

Lemma length_lacingValues (size : nat) :
  length (lacingValues size) = segmentsOf size.
Proof. rewrite <- lacing_values, length_map. apply length_lacing. Qed.

Lemma concat_lacing_values (sizes : list nat) :
  map u8val (concat (map lacing sizes)) = concat (map lacingValues sizes).
Proof.
  induction sizes as [|size sizes IH]; [reflexivity|].
  cbn [map concat]. rewrite map_app, lacing_values, IH. reflexivity.
Qed.

(** The segment table and the segment count of a page. *)
Lemma page_lacing tbl ser seq gran isLast (packets : list (Uint8Array * Z)) :
  let page := pageOf tbl ser seq gran isLast (map fst packets) in
  let lengths := map length (map fst packets) in
  map u8val (field 27 (segmentsIn packets) page) = concat (map lacingValues lengths)
  /\ length (concat (map lacingValues lengths)) = segmentsIn packets
  /\ segmentCountOf page = Z.of_nat (segmentsIn packets) mod 256.
Proof.
  intros page lengths. subst page lengths. unfold segmentsIn. split; [|split].
  - rewrite page_segment_table. apply concat_lacing_values.
  - rewrite <- concat_lacing_values, length_map. apply length_concat_lacing.
  - apply segmentCountOf_page.
Qed.

(** C2, as the code has it.  Every packet passed to [addPacket] is kept, in
    order, for a page.  The segment table of every page is, packet by
    packet, [floor(L/255)] values 255 followed by the one value [L mod 255]
    (also when [L] is a multiple of 255 and when [L = 0]).  The
    segment-count byte is the number of these values modulo 256: it is
    their number whenever the page has at most 255 of them. *)
Theorem lacing_entries (rate chans random : Z) (calls : list call) :
  exists m j,
    session rate chans random calls = Ok m
    /\ sessionJ rate chans random calls = Ok (m, j)
    /\ accepted j = accepted (initialJournal rate chans) ++ passed calls
    /\ lacingValues 0 = [0]
    /\ lacingValues 510 = [255; 255; 0]
    /\ forall (k : nat) (page : Uint8Array) (r : pageRecord),
         pages m !! k = Some page -> emitted j !! k = Some r ->
         let lengths := map length (map fst (pr_packets r)) in
         let entries := concat (map lacingValues lengths) in
         map u8val (field 27 (length entries) page) = entries
         /\ drop (27 + length entries) page = concat (map fst (pr_packets r))
         /\ segmentCountOf page = Z.of_nat (length entries) mod 256
         /\ ((length entries <= 255)%nat ->
             segmentCountOf page = Z.of_nat (length entries)).
Proof.
  destruct (session_pages rate chans random calls)
    as (m & j & Hs & HJ & Hj & C & Hp & Hlen & rs & Hrs).
  exists m, j. split; [exact Hs|]. split; [exact HJ|].
  split; [rewrite Hj; apply accepted_run|].
  split; [reflexivity|]. split; [reflexivity|].
  intros k page r Hk Hr lengths entries. rewrite Hp in Hk.
  apply render_lookup in Hk as (r' & Hr' & ->).
  assert (r' = r) by congruence. subst r'.
  destruct (page_lacing makeCRCTable random (0 + k)
              (granuleAfter 0 (concat (map pr_packets (take (S k) (emitted j)))))
              (pr_isLast r) (pr_packets r)) as (Htable & Hcount & Hbyte).
  fold lengths in Htable, Hcount. fold entries in Htable, Hcount.
  rewrite Hcount. split; [exact Htable|]. split; [apply page_payload|].
  split; [exact Hbyte|].
  intros Hfew. rewrite Hbyte. apply Z.mod_small. lia.
Qed.

Lemma lacing_entries_witness :
  exists m j page r,
    sessionJ 48000 2 7 [AddPacket (replicate 510 x01) 960; GetBlob] = Ok (m, j)
    /\ pages m !! 2%nat = Some page
    /\ emitted j !! 2%nat = Some r
    /\ map u8val (field 27 3 page) = [255; 255; 0]
    /\ segmentCountOf page = 3.
Proof.
  destruct (lacing_entries 48000 2 7 [AddPacket (replicate 510 x01) 960; GetBlob])
    as (m & j & Hs & HJ & _ & _ & _ & Hpages).
  assert (HJ' := HJ). vm_compute in HJ'.
  destruct (pages m !! 2%nat) as [page|] eqn:Hpage;
    [|injection HJ' as <- <-; discriminate Hpage].
  destruct (emitted j !! 2%nat) as [r|] eqn:Hr;
    [|injection HJ' as <- <-; discriminate Hr].
  destruct (Hpages 2%nat page r Hpage Hr) as (Htable & _ & _ & Hcount).
  assert (Hrec : map length (map fst (pr_packets r)) = [510%nat])
    by (injection HJ' as <- <-; injection Hr as <-; reflexivity).
  rewrite Hrec in Htable, Hcount.
  exists m, j, page, r. split; [exact HJ|]. split; [exact Hpage|].
  split; [exact Hr|]. split; [exact Htable|].
  apply Hcount. vm_compute. lia.
Defined.

(** A packet of 255 * 255 bytes needs 256 lacing values. *)
Lemma segmentsOf_65025 : segmentsOf (Z.to_nat 65025) = 256%nat.
Proof.
  unfold segmentsOf.
  replace (Z.to_nat 65025) with (255 * 255)%nat by lia.
  rewrite Nat.div_mul by lia. reflexivity.
Qed.

Lemma oversize_page (big : Uint8Array) :
  length big = Z.to_nat 65025 ->
  exists m page,
    session 48000 2 0 [AddPacket big 960; GetBlob] = Ok m
    /\ pages m !! 2%nat = Some page
    /\ map u8val (field 27 256 page) = lacingValues (length big)
    /\ length (lacingValues (length big)) = 256%nat
    /\ segmentCountOf page = 0.
Proof.
  intros Hbig.
  destruct (session_pages 48000 2 0 [AddPacket big 960; GetBlob])
    as (m & j & Hs & _ & Hj & _ & Hp & _).
  assert (Hemitted : emitted j
                     = emitted (initialJournal 48000 2)
                       ++ [mkPageRecord [(big, 960)] true]).
  { rewrite Hj. unfold runJournal. cbn [foldl stepJournal]. unfold addJournal.
    destruct (255 <? _)%nat; reflexivity. }
  rewrite Hemitted in Hp.
  cbn [initialJournal emitted app render pr_packets pr_isLast] in Hp.
  match type of Hp with
  | pages m = [_; _; pageOf _ _ _ ?g _ _] =>
      destruct (page_lacing makeCRCTable 0 2 g true [(big, 960)])
        as (Htable & _ & Hbyte);
      exists m, (pageOf makeCRCTable 0 2 g true (map fst [(big, 960)]))
  end.
  split; [exact Hs|]. split; [rewrite Hp; reflexivity|].
  rewrite segmentsIn_single, Hbig, segmentsOf_65025 in Htable, Hbyte.
  cbn [map fst concat] in Htable. rewrite app_nil_r, Hbig in Htable.
  rewrite length_lacingValues, Hbig, segmentsOf_65025.
  split; [exact Htable|]. split; [reflexivity|]. exact Hbyte.
Qed.

(** C2 as the specification has it fails: a page that holds one packet of
    65,025 zero bytes has the 256 lacing values of that packet in its
    segment table, and 0 in its segment-count byte. *)
Lemma lacing_entries_counterexample :
  exists m page,
    session 48000 2 0 [AddPacket (replicate (Z.to_nat 65025) x00) 960; GetBlob]
    = Ok m
    /\ pages m !! 2%nat = Some page
    /\ length (lacingValues (length (replicate (Z.to_nat 65025) x00))) = 256%nat
    /\ segmentCountOf page = 0
    /\ segmentCountOf page
       <> Z.of_nat (length (lacingValues (length (replicate (Z.to_nat 65025) x00)))).
Proof.
  destruct (oversize_page (replicate (Z.to_nat 65025) x00))
    as (m & page & Hs & Hpage & _ & Hlen & Hcount).
  - apply length_replicate.
  - exists m, page. split; [exact Hs|]. split; [exact Hpage|].
    split; [exact Hlen|]. split; [exact Hcount|].
    rewrite Hcount, Hlen. discriminate.
Qed.


(** * Further properties of the code *)

(** ** Sessions, continued *)

Lemma run_app (l k : list call) : forall (m : OggOpusMuxer),
  run (l ++ k) m = let* m' := run l m in run k m'.
Proof.
  induction l as [|c l IH]; intros m; [reflexivity|].
  cbn [app run]. destruct (step c m) as [m1|]; cbn [bind]; [apply IH|reflexivity].
Qed.

Lemma session_app (rate chans random : Z) (calls more : list call) :
  session rate chans random (calls ++ more)
  = let* m := session rate chans random calls in run more m.
Proof.
  unfold session. destruct (newMuxer rate chans random) as [m0|]; [|reflexivity].
  cbn [bind]. apply run_app.
Qed.

Lemma render_app (tbl : list Z) (ser : Z) (rs rs' : list pageRecord) :
  forall (seq : nat) (gran : Z),
  render tbl ser seq gran (rs ++ rs')
  = render tbl ser seq gran rs
    ++ render tbl ser (seq + length rs)
         (granuleAfter gran (concat (map pr_packets rs))) rs'.
Proof.
  induction rs as [|r rs IH]; intros seq gran.
  - cbn [app render map concat length]. rewrite Nat.add_0_r. reflexivity.
  - cbn [app render map concat length].
    rewrite IH, granuleAfter_app, Nat.add_succ_comm. reflexivity.
Qed.

(** A reader finds the segment table and the payload of a page that has at
    most 255 segments. *)
Lemma page_reader tbl ser seq gran isLast (packets : list Uint8Array) :
  (sum_list (map segmentsOf (map length packets)) <= 255)%nat ->
  let page := pageOf tbl ser seq gran isLast packets in
  segmentTableOf page = concat (map lacing (map length packets))
  /\ payloadOf page = concat packets.
Proof.
  intros Hfew page. subst page. unfold segmentTableOf, payloadOf.
  rewrite segmentCountOf_page, Z.mod_small, Nat2Z.id by lia.
  split; [apply page_segment_table|apply page_payload].
Qed.

Lemma versionOf_page tbl ser seq gran isLast packets :
  versionOf (pageOf tbl ser seq gran isLast packets) = 0.
Proof. reflexivity. Qed.

(** X1.  The size of every page is 27 bytes of header, one byte for each
    lacing value of its packets, and the bytes of its packets; the stream
    that [getBlob] returns has the sizes of its pages added up. *)
Theorem page_sizes (rate chans random : Z) (calls : list call) :
  exists m j blob m',
    session rate chans random calls = Ok m
    /\ sessionJ rate chans random calls = Ok (m, j)
    /\ (forall (k : nat) (page : Uint8Array) (r : pageRecord),
          pages m !! k = Some page -> emitted j !! k = Some r ->
          length page
          = (27 + sum_list (map (fun p => segmentsOf (length (fst p))) (pr_packets r))
             + sum_list (map (fun p => length (fst p)) (pr_packets r)))%nat)
    /\ getBlob m = Ok (m', blob)
    /\ length blob = sum_list (map length (pages m')).
Proof.
  destruct (session_pages rate chans random calls)
    as (m & j & Hs & HJ & _ & C & Hp & _).
  destruct (terminal_flush random m j C) as (_ & Hg & _).
  eexists m, j, _, _. split; [exact Hs|]. split; [exact HJ|]. split.
  - intros k page r Hk Hr. rewrite Hp in Hk.
    apply render_lookup in Hk as (r' & Hr' & ->).
    assert (r' = r) by congruence. subst r'.
    rewrite length_page, !map_map. reflexivity.
  - split; [exact Hg|]. cbn [flushed pages]. apply length_concat_sum.
Qed.

(** X2.  Every page of a session has version 0 and carries the serial
    number drawn at construction, reduced to 32 bits; a draw of
    [Math.floor(Math.random() * 0xFFFFFFFF)] is below 2^32 and is stored as
    it is. *)
Theorem stream_identity (rate chans random : Z) (calls : list call) :
  exists m,
    session rate chans random calls = Ok m
    /\ serial m = random
    /\ Forall (fun page => versionOf page = 0
                           /\ serialOf page = random mod 2 ^ 32
                           /\ (0 <= random < 2 ^ 32 -> serialOf page = random))
              (pages m).
Proof.
  destruct (session_pages rate chans random calls)
    as (m & j & Hs & _ & _ & C & Hp & _).
  exists m. split; [exact Hs|]. split; [apply C|].
  rewrite Hp. apply render_Forall. intros seq gran isLast packets.
  split; [apply versionOf_page|]. split; [apply serialOf_page|].
  intros Hr. rewrite serialOf_page. apply Z.mod_small, Hr.
Qed.

(** X3.  Finished pages are never touched again: whatever calls follow,
    the pages emitted so far stay, in order, at the head of the list of
    pages. *)
Theorem pages_append_only (rate chans random : Z) (calls more : list call) :
  exists m m' new,
    session rate chans random calls = Ok m
    /\ run more m = Ok m'
    /\ session rate chans random (calls ++ more) = Ok m'
    /\ pages m' = pages m ++ new.
Proof.
  destruct (session_pages rate chans random calls)
    as (m & j & Hs & _ & Hj & C & Hp & _).
  destruct (session_pages rate chans random (calls ++ more))
    as (m' & j' & Hs' & _ & Hj' & C' & Hp' & _).
  rewrite runJournal_app, <- Hj in Hj'.
  destruct (emitted_run more j) as [rs Hrs]. rewrite <- Hj' in Hrs.
  exists m, m'. eexists. split; [exact Hs|].
  assert (Hrun : run more m = Ok m').
  { rewrite session_app, Hs in Hs'. exact Hs'. }
  split; [exact Hrun|]. split; [exact Hs'|].
  rewrite Hp', Hrs, render_app, <- Hp. reflexivity.
Qed.

(** ** Taking the packets out of a page *)

Lemma packetLengths_run (n r : nat) (rest : list byte) : forall (acc : nat),
  (r < 255)%nat ->
  packetLengths acc (replicate n xff ++ u8 (Z.of_nat r) :: rest)
  = (acc + 255 * n + r)%nat :: packetLengths 0 rest.
Proof.
  induction n as [|n IH]; intros acc Hr.
  - cbn [replicate app packetLengths].
    rewrite u8val_u8_small by lia.
    destruct (Z.ltb_spec (Z.of_nat r) 255); [|lia].
    rewrite Nat2Z.id. f_equal. lia.
  - cbn [replicate app packetLengths].
    change (u8val xff <? 255) with false. cbv iota.
    rewrite IH by exact Hr. f_equal. lia.
Qed.

Lemma packetLengths_lacing (size : nat) (rest : list byte) :
  packetLengths 0 (lacing size ++ rest) = size :: packetLengths 0 rest.
Proof.
  unfold lacing. rewrite <- app_assoc. cbn [app].
  rewrite packetLengths_run by (apply Nat.mod_upper_bound; lia).
  f_equal. rewrite (Nat.div_mod_eq size 255) at 3. lia.
Qed.

Lemma packetLengths_concat (sizes : list nat) :
  packetLengths 0 (concat (map lacing sizes)) = sizes.
Proof.
  induction sizes as [|size sizes IH]; [reflexivity|].
  cbn [map concat]. rewrite packetLengths_lacing, IH. reflexivity.
Qed.

Lemma cut_concat (packets : list Uint8Array) :
  cut (map length packets) (concat packets) = packets.
Proof.
  induction packets as [|packet packets IH]; [reflexivity|].
  cbn [map concat cut].
  rewrite take_app_length, drop_app_length, IH. reflexivity.
Qed.

(** A reader takes out of a page that has at most 255 segments the packets
    that the page was made from. *)
Lemma packetsOf_page tbl ser seq gran isLast (packets : list Uint8Array) :
  (sum_list (map segmentsOf (map length packets)) <= 255)%nat ->
  packetsOf (pageOf tbl ser seq gran isLast packets) = packets.
Proof.
  intros Hfew. unfold packetsOf.
  destruct (page_reader tbl ser seq gran isLast packets Hfew) as [-> ->].
  rewrite packetLengths_concat. apply cut_concat.
Qed.

Lemma render_packets (tbl : list Z) (ser : Z) (rs : list pageRecord) :
  Forall (fun r => (segmentsIn (pr_packets r) <= 255)%nat) rs ->
  forall (seq : nat) (gran : Z),
  concat (map packetsOf (render tbl ser seq gran rs))
  = map fst (concat (map pr_packets rs)).
Proof.
  induction 1 as [|r rs Hr Hrs IH]; intros seq gran; [reflexivity|].
  cbn [render map concat]. rewrite map_app, IH. f_equal.
  apply packetsOf_page. exact Hr.
Qed.

Lemma render_whole (tbl : list Z) (ser : Z) (rs : list pageRecord) :
  Forall (fun r => (segmentsIn (pr_packets r) <= 255)%nat) rs ->
  forall (seq : nat) (gran : Z),
  Forall (fun page => concat (packetsOf page) = payloadOf page)
    (render tbl ser seq gran rs).
Proof.
  induction 1 as [|r rs Hr Hrs IH]; intros seq gran; [constructor|].
  cbn [render]. constructor; [|apply IH].
  rewrite packetsOf_page by exact Hr.
  symmetry. apply page_reader. exact Hr.
Qed.

(** X4.  No packet is lost, repeated, reordered, split or merged: when
    every packet needs at most 255 lacing values, the packets that a reader
    takes out of the pages through their segment tables, one page after the
    other, followed by the packets still pending, are the identification
    packet, the comment packet and the packets passed to [addPacket], each
    one with its own bytes, in that order, empty packets included; and the
    packets of a page make up its whole payload. *)
Theorem packets_preserved (rate chans random : Z) (calls : list call) :
  Forall fitsPage (passed calls) ->
  exists m,
    session rate chans random calls = Ok m
    /\ concat (map packetsOf (pages m)) ++ packetBuffer m
       = idHeaderBytes rate chans :: commentHeaderBytes :: map fst (passed calls)
    /\ Forall (fun page => concat (packetsOf page) = payloadOf page) (pages m).
Proof.
  intros Hfit.
  destruct (session_pages rate chans random calls)
    as (m & j & Hs & _ & Hj & C & Hp & _).
  assert (Hbudget : withinBudget j).
  { rewrite Hj. apply withinBudget_run; [exact Hfit|apply withinBudget_initial]. }
  exists m. split; [exact Hs|]. split.
  - rewrite Hp, render_packets by apply Hbudget.
    rewrite (cons_buffer _ _ _ C), <- map_app.
    fold (accepted j). rewrite Hj, accepted_run, map_app. reflexivity.
  - rewrite Hp. apply render_whole, Hbudget.
Qed.

Lemma packets_preserved_witness :
  Forall fitsPage (passed [AddPacket [x01; x02] 960; FlushPage false;
                           AddPacket [] 0; AddPacket [x03] 960])
  /\ exists m,
       session 48000 2 7 [AddPacket [x01; x02] 960; FlushPage false;
                          AddPacket [] 0; AddPacket [x03] 960] = Ok m
       /\ concat (map packetsOf (pages m))
          = [idHeaderBytes 48000 2; commentHeaderBytes; [x01; x02]]
       /\ packetBuffer m = [[]; [x03]].
Proof.
  assert (H : Forall fitsPage (passed [AddPacket [x01; x02] 960; FlushPage false;
                                       AddPacket [] 0; AddPacket [x03] 960])).
  { repeat constructor; vm_compute; lia. }
  split; [exact H|].
  destruct (packets_preserved 48000 2 7 _ H) as (m & Hs & Hpackets & _).
  exists m. split; [exact Hs|].
  assert (Hbuffer : packetBuffer m = [[]; [x03]]).
  { vm_compute in Hs. injection Hs as <-. reflexivity. }
  split; [|exact Hbuffer].
  rewrite Hbuffer in Hpackets.
  change (idHeaderBytes 48000 2 :: commentHeaderBytes
          :: map fst (passed [AddPacket [x01; x02] 960; FlushPage false;
                              AddPacket [] 0; AddPacket [x03] 960]))
    with ([idHeaderBytes 48000 2; commentHeaderBytes; [x01; x02]] ++ [[]; [x03]])
    in Hpackets.
  apply app_inv_tail in Hpackets. exact Hpackets.
Defined.

(** ** Reading the segment table back *)

Lemma lacing_last_ne (size : nat) : u8 (Z.of_nat (size mod 255)) <> xff.
Proof.
  intros E. apply (f_equal u8val) in E.
  pose proof (Nat.mod_upper_bound size 255 ltac:(lia)).
  rewrite u8val_u8_small in E by lia.
  change (u8val xff) with 255 in E. lia.
Qed.

Lemma run_of_255_inj (a b : nat) (c d : byte) (X Y : list byte) :
  c <> xff -> d <> xff ->
  replicate a xff ++ c :: X = replicate b xff ++ d :: Y ->
  a = b /\ c = d /\ X = Y.
Proof.
  intros Hc Hd. revert b. induction a as [|a IH]; intros [|b] H; cbn in H.
  - injection H as -> ->. auto.
  - injection H as -> _. congruence.
  - injection H as <- _. congruence.
  - injection H as H. apply IH in H as (-> & -> & ->). auto.
Qed.

Lemma lacing_inj_app (s1 s2 : nat) (X Y : list byte) :
  lacing s1 ++ X = lacing s2 ++ Y -> s1 = s2 /\ X = Y.
Proof.
  unfold lacing. rewrite <- !app_assoc. cbn [app]. intros H.
  apply run_of_255_inj in H as (Hdiv & Hmod & HXY); try apply lacing_last_ne.
  split; [|exact HXY].
  apply (f_equal u8val) in Hmod.
  pose proof (Nat.mod_upper_bound s1 255 ltac:(lia)).
  pose proof (Nat.mod_upper_bound s2 255 ltac:(lia)).
  rewrite !u8val_u8_small in Hmod by lia.
  rewrite (Nat.div_mod_eq s1 255), (Nat.div_mod_eq s2 255). lia.
Qed.

Lemma concat_lacing_inj (l1 : list nat) : forall (l2 : list nat),
  concat (map lacing l1) = concat (map lacing l2) -> l1 = l2.
Proof.
  induction l1 as [|s1 l1 IH]; intros [|s2 l2] H; cbn [map concat] in H.
  - reflexivity.
  - apply (f_equal length) in H. rewrite length_app, length_lacing in H.
    unfold segmentsOf in H. cbn in H. lia.
  - apply (f_equal length) in H. rewrite length_app, length_lacing in H.
    unfold segmentsOf in H. cbn in H. lia.
  - apply lacing_inj_app in H as [-> H]. f_equal. apply IH, H.
Qed.

Lemma concat_inj_lengths (ps : list Uint8Array) : forall (qs : list Uint8Array),
  map length ps = map length qs -> concat ps = concat qs -> ps = qs.
Proof.
  induction ps as [|p ps IH]; intros [|q qs] Hl H; try discriminate; [reflexivity|].
  cbn [map concat] in *. injection Hl as Hpq Hl.
  apply app_inj_1 in H as [-> H]; [|exact Hpq]. f_equal. apply IH; assumption.
Qed.

Lemma page_body tbl ser seq gran isLast (packets : list Uint8Array) :
  drop 27 (pageOf tbl ser seq gran isLast packets)
  = concat (map lacing (map length packets)) ++ concat packets.
Proof.
  unfold pageOf, pageWith. apply drop_app_length'.
  symmetry. apply length_pageHeader, length_le_bytes.
Qed.

(** Two equal pages with at most 255 segments hold the same packets. *)
Lemma pageOf_packets_inj tbl ser seq gran isLast (ps : list Uint8Array)
    tbl' ser' seq' gran' isLast' (qs : list Uint8Array) :
  (sum_list (map segmentsOf (map length ps)) <= 255)%nat ->
  (sum_list (map segmentsOf (map length qs)) <= 255)%nat ->
  pageOf tbl ser seq gran isLast ps = pageOf tbl' ser' seq' gran' isLast' qs ->
  ps = qs.
Proof.
  intros Hp Hq H.
  assert (Hn : sum_list (map segmentsOf (map length ps))
               = sum_list (map segmentsOf (map length qs))).
  { pose proof (f_equal segmentCountOf H) as Hc.
    rewrite !segmentCountOf_page, !Z.mod_small in Hc by lia. lia. }
  apply (f_equal (drop 27)) in H. rewrite !page_body in H.
  apply app_inj_1 in H as [Htable Hpayload];
    [|rewrite !length_concat_lacing; exact Hn].
  apply concat_lacing_inj in Htable.
  apply concat_inj_lengths; assumption.
Qed.

(** X5.  A page can be read back without ambiguity: when every packet
    needs at most 255 lacing values, two pages with the same bytes, of the
    same session or of two sessions, were made from the same packets. *)
Theorem page_determines_packets (rate chans random : Z) (calls : list call)
    (rate' chans' random' : Z) (calls' : list call) :
  Forall fitsPage (passed calls) ->
  Forall fitsPage (passed calls') ->
  exists m j m' j',
    sessionJ rate chans random calls = Ok (m, j)
    /\ sessionJ rate' chans' random' calls' = Ok (m', j')
    /\ forall (k k' : nat) (page : Uint8Array) (r r' : pageRecord),
         pages m !! k = Some page -> pages m' !! k' = Some page ->
         emitted j !! k = Some r -> emitted j' !! k' = Some r' ->
         map fst (pr_packets r) = map fst (pr_packets r').
Proof.
  intros Hfit Hfit'.
  destruct (session_pages rate chans random calls)
    as (m & j & _ & HJ & Hj & _ & Hp & _).
  destruct (session_pages rate' chans' random' calls')
    as (m' & j' & _ & HJ' & Hj' & _ & Hp' & _).
  assert (Hb : withinBudget j)
    by (rewrite Hj; apply withinBudget_run; [exact Hfit|apply withinBudget_initial]).
  assert (Hb' : withinBudget j')
    by (rewrite Hj'; apply withinBudget_run; [exact Hfit'|apply withinBudget_initial]).
  exists m, j, m', j'. split; [exact HJ|]. split; [exact HJ'|].
  intros k k' page r r' Hk Hk' Hr Hr'.
  rewrite Hp in Hk. apply render_lookup in Hk as (r0 & Hr0 & Hpage).
  rewrite Hp' in Hk'. apply render_lookup in Hk' as (r0' & Hr0' & Hpage').
  assert (r0 = r) by congruence. assert (r0' = r') by congruence. subst r0 r0'.
  destruct Hb as [_ Hb]. destruct Hb' as [_ Hb'].
  rewrite Forall_forall in Hb, Hb'.
  eapply pageOf_packets_inj; [| |rewrite <- Hpage; exact Hpage'].
  - apply Hb, list_elem_of_In. eapply list_elem_of_lookup_2, Hr.
  - apply Hb', list_elem_of_In. eapply list_elem_of_lookup_2, Hr'.
Qed.

Lemma page_determines_packets_witness :
  Forall fitsPage (passed [AddPacket [x01; x02] 960; GetBlob])
  /\ Forall fitsPage (passed [AddPacket [x01; x02] 960; FlushPage true])
  /\ exists m j m' j',
       sessionJ 48000 2 7 [AddPacket [x01; x02] 960; GetBlob] = Ok (m, j)
       /\ sessionJ 48000 2 7 [AddPacket [x01; x02] 960; FlushPage true] = Ok (m', j')
       /\ pages m !! 2%nat = pages m' !! 2%nat
       /\ (map fst <$> (pr_packets <$> emitted j !! 2%nat))
          = (map fst <$> (pr_packets <$> emitted j' !! 2%nat)).
Proof.
  assert (H1 : Forall fitsPage (passed [AddPacket [x01; x02] 960; GetBlob]))
    by (repeat constructor; vm_compute; lia).
  assert (H2 : Forall fitsPage (passed [AddPacket [x01; x02] 960; FlushPage true]))
    by (repeat constructor; vm_compute; lia).
  split; [exact H1|]. split; [exact H2|].
  destruct (page_determines_packets 48000 2 7 _ 48000 2 7 _ H1 H2)
    as (m & j & m' & j' & HJ & HJ' & Hsame).
  exists m, j, m', j'. split; [exact HJ|]. split; [exact HJ'|].
  assert (E := HJ). assert (E' := HJ'). vm_compute in E, E'.
  destruct (pages m !! 2%nat) as [page|] eqn:Hk;
    [|injection E as <- <-; discriminate Hk].
  destruct (pages m' !! 2%nat) as [page'|] eqn:Hk';
    [|injection E' as <- <-; discriminate Hk'].
  destruct (emitted j !! 2%nat) as [r|] eqn:Hr;
    [|injection E as <- <-; discriminate Hr].
  destruct (emitted j' !! 2%nat) as [r'|] eqn:Hr';
    [|injection E' as <- <-; discriminate Hr'].
  assert (Hpages : page = page').
  { injection E as <- <-. injection E' as <- <-.
    injection Hk as <-. injection Hk' as <-. reflexivity. }
  subst page'. split; [reflexivity|].
  cbn. f_equal. exact (Hsame 2%nat 2%nat page r r' Hk Hk' Hr Hr').
Defined.

(** ** The segment-table loop on its own *)

Lemma setUint8_out (offset : nat) (v : Z) (buf : Uint8Array) :
  (length buf <= offset)%nat -> setUint8 offset v buf = Throw RangeError.
Proof.
  intros H. unfold setUint8.
  destruct (Nat.ltb_spec offset (length buf)); [lia|reflexivity].
Qed.

Lemma setUint8_in (offset : nat) (v : Z) (buf : Uint8Array) :
  (offset < length buf)%nat ->
  setUint8 offset v buf = Ok (<[offset := u8 v]> buf).
Proof.
  intros H. unfold setUint8.
  destruct (Nat.ltb_spec offset (length buf)); [reflexivity|lia].
Qed.

Lemma segmentsOf_ge (size : nat) :
  (255 <= size)%nat -> segmentsOf size = S (segmentsOf (size - 255)).
Proof.
  intros H. unfold segmentsOf.
  replace size with ((size - 255) + 1 * 255)%nat at 1 by lia.
  rewrite Nat.div_add by lia. lia.
Qed.

Lemma writeLacing_out (size : nat) : forall (offset : nat) (buf : Uint8Array),
  (length buf < offset + segmentsOf size)%nat ->
  writeLacing size offset buf = Throw RangeError.
Proof.
  induction (lt_wf size) as [size _ IH]. intros offset buf Hout.
  destruct (le_lt_dec 255 size) as [Hge|Hlt].
  - rewrite writeLacing_ge by assumption.
    destruct (le_lt_dec (length buf) offset) as [Hoff|Hin].
    + rewrite setUint8_out by assumption. reflexivity.
    + rewrite setUint8_in by assumption. cbn [bind].
      apply IH; [lia|]. rewrite length_insert.
      rewrite segmentsOf_ge in Hout by assumption. lia.
  - rewrite writeLacing_lt by assumption.
    assert (segmentsOf size = 1%nat)
      by (unfold segmentsOf; rewrite Nat.div_small by lia; reflexivity).
    rewrite setUint8_out by lia. reflexivity.
Qed.

Lemma sum_lacingValues (size : nat) :
  foldr Z.add 0 (lacingValues size) = Z.of_nat size.
Proof.
  unfold lacingValues. rewrite foldr_app. cbn [foldr].
  rewrite (Nat.div_mod_eq size 255) at 3.
  generalize (size mod 255)%nat as r. generalize (size / 255)%nat as q.
  intros q r. induction q as [|q IH]; cbn [repeat foldr]; [lia|].
  rewrite IH. lia.
Qed.

(** X6.  The segment-table loop for one packet either writes the whole
    run of lacing values into the cells from [offset] on and leaves every
    other cell as it was, or, when the run does not fit into the buffer,
    throws [RangeError]; the values of a run add up to the size of the
    packet. *)
Theorem writeLacing_run (size offset : nat) (buf : Uint8Array) :
  writeLacing size offset buf
  = (if (offset + segmentsOf size <=? length buf)%nat
     then Ok (take offset buf ++ lacing size ++ drop (offset + segmentsOf size) buf,
              (offset + segmentsOf size)%nat)
     else Throw RangeError)
  /\ foldr Z.add 0 (map u8val (lacing size)) = Z.of_nat size.
Proof.
  split; [|rewrite lacing_values; apply sum_lacingValues].
  destruct (Nat.leb_spec (offset + segmentsOf size) (length buf)) as [Hfit|Hout].
  - rewrite <- (take_drop offset buf) at 1.
    rewrite <- (take_drop (segmentsOf size) (drop offset buf)) at 1.
    rewrite drop_drop.
    apply writeLacing_at.
    + rewrite length_take. lia.
    + rewrite length_take, length_drop. lia.
  - apply writeLacing_out, Hout.
Qed.

(** ** Flushing twice *)

(** X7.  A non-terminal flush right after a flush that returned does
    nothing, for every state of the muxer: the first flush leaves no
    pending packet. *)
Theorem flush_then_flush (isLast : bool) (m m' : OggOpusMuxer) :
  flushPage isLast m = Ok m' -> flushPage false m' = Ok m'.
Proof.
  unfold flushPage at 1.
  destruct ((length (packetBuffer m) =? 0)%nat && negb isLast) eqn:E.
  - intros [= <-]. apply andb_prop in E as [E _].
    unfold flushPage. rewrite E. reflexivity.
  - destruct (buildPage isLast m) as [buffer|]; cbn [bind]; [|discriminate].
    intros [= <-]. reflexivity.
Qed.

Lemma flush_then_flush_witness :
  exists m',
    flushPage true (initialMuxer 48000 2 7) = Ok m'
    /\ flushPage false m' = Ok m'.
Proof.
  destruct (flushPage true (initialMuxer 48000 2 7)) as [m'|] eqn:E.
  - exists m'. split; [reflexivity|]. exact (flush_then_flush true _ m' E).
  - vm_compute in E. discriminate E.
Defined.

(** X8.  Calling [getBlob] a second time adds one more page to the stream:
    27 bytes, no segment, end-of-stream flag set, the next sequence number
    and the granule position of the muxer; the second stream is the first
    one followed by that page. *)
Theorem getBlob_twice (rate chans random : Z) (calls : list call) :
  exists m m1 blob1 m2 blob2 page,
    session rate chans random calls = Ok m
    /\ getBlob m = Ok (m1, blob1)
    /\ getBlob m1 = Ok (m2, blob2)
    /\ pages m2 = pages m1 ++ [page]
    /\ blob2 = blob1 ++ page
    /\ length page = 27%nat
    /\ segmentCountOf page = 0
    /\ flagEOS page = true
    /\ sequenceOf page = Z.of_nat (length (pages m1)) mod 2 ^ 32
    /\ granuleOf page = granulePosition m mod 2 ^ 64.
Proof.
  destruct (session_pages rate chans random calls)
    as (m & j & Hs & _ & _ & C & _).
  destruct (terminal_flush random m j C) as (Hf & Hg & _).
  destruct (flushPageJ_journal random true m j C) as (m1 & HJ1 & C1).
  assert (Hm1 : flushed (pageOf makeCRCTable random (length (emitted j))
                            (granuleAfter 0 (accepted j)) true (map fst (pending j))) m
               = m1).
  { unfold flushPageJ in HJ1. rewrite Hf in HJ1. cbn [bind] in HJ1.
    injection HJ1 as HJ1 _. exact HJ1. }
  destruct (terminal_flush random m1 _ C1) as (_ & Hg1 & He1).
  assert (Hpend : pending (flushJournal true j) = []).
  { unfold flushJournal. destruct (pending j); reflexivity. }
  rewrite Hpend in Hg1, He1. cbn [map] in Hg1, He1.
  set (page := pageOf makeCRCTable random _ _ true []) in *.
  eexists m, m1, _, _, _, page. split; [exact Hs|].
  split; [rewrite Hg, <- Hm1; reflexivity|].
  split; [exact Hg1|]. cbn [flushed pages].
  split; [reflexivity|]. split.
  - rewrite concat_app. cbn [concat]. rewrite app_nil_r. f_equal.
    rewrite <- Hm1. reflexivity.
  - subst page. split; [apply length_page|]. split; [apply segmentCountOf_page|].
    split; [exact He1|]. split.
    + rewrite sequenceOf_page. rewrite (cons_pages _ _ _ C1), length_render.
      reflexivity.
    + rewrite granuleOf_page, accepted_flush, <- (cons_granule _ _ _ C).
      reflexivity.
Qed.

(** ** The checksum engine on any buffer *)

Lemma crcLoop_zeroCells (buffer : list byte) : forall (i : nat) (crc : Z),
  JS.toUint32 (crcLoop makeCRCTable i buffer crc)
  = foldl Reference.feedByte (JS.toUint32 crc) (zeroCellsFrom i buffer).
Proof.
  induction buffer as [|b rest IH]; intros i crc; [reflexivity|].
  cbn [crcLoop zeroCellsFrom foldl]. rewrite IH. f_equal.
  destruct ((22 <=? i)%nat && (i <=? 25)%nat) eqn:E.
  - apply andb_prop in E as [E1 E2].
    apply Nat.leb_le in E1, E2. apply crcUpdate_inside. lia.
  - apply crcUpdate_outside. apply andb_false_iff in E as [E|E];
      apply Nat.leb_gt in E; lia.
Qed.

Lemma zeroCellsFrom_length (buffer : list byte) : forall (i : nat),
  length (zeroCellsFrom i buffer) = length buffer.
Proof. induction buffer as [|b rest IH]; intros i; cbn; [reflexivity|]. now rewrite IH. Qed.

Lemma zeroCellsFrom_lookup (buffer : list byte) : forall (i k : nat),
  zeroCellsFrom i buffer !! k
  = (fun b => if (22 <=? i + k)%nat && (i + k <=? 25)%nat then x00 else b)
      <$> buffer !! k.
Proof.
  induction buffer as [|b rest IH]; intros i k; [reflexivity|].
  destruct k as [|k]; cbn [zeroCellsFrom].
  - cbn. rewrite Nat.add_0_r. reflexivity.
  - cbn [lookup list_lookup]. rewrite IH.
    replace (S i + k)%nat with (i + S k)%nat by lia. reflexivity.
Qed.

(** X9.  For every buffer, of any length, [_calculateCRC] with the table of
    [_makeCRCTable] returns an unsigned 32-bit number: the bitwise checksum
    (polynomial 0x04C11DB7, most significant bit first, zero initial value)
    of the buffer in which the cells 22 to 25 that exist are read as zero
    and every other cell as it is.  The empty buffer has checksum 0. *)
Theorem calculateCRC_any (buffer : Uint8Array) :
  calculateCRC makeCRCTable buffer = Reference.crc32 (zeroCellsFrom 0 buffer)
  /\ 0 <= calculateCRC makeCRCTable buffer < 2 ^ 32
  /\ length (zeroCellsFrom 0 buffer) = length buffer
  /\ (forall k : nat,
        zeroCellsFrom 0 buffer !! k
        = (fun b => if (22 <=? k)%nat && (k <=? 25)%nat then x00 else b)
            <$> buffer !! k)
  /\ calculateCRC makeCRCTable [] = 0.
Proof.
  split; [|split; [apply calculateCRC_range|split; [apply zeroCellsFrom_length|split]]].
  - rewrite calculateCRC_toUint32. apply crcLoop_zeroCells.
  - intros k. apply (zeroCellsFrom_lookup buffer 0 k).
  - reflexivity.
Qed.

(** X10.  The table of [_makeCRCTable] has 256 entries; the entry of a
    byte is an unsigned 32-bit number, the bitwise checksum of the message
    that consists of that byte. *)
Theorem crcTable_entries (b : byte) :
  length makeCRCTable = 256%nat
  /\ makeCRCTable !! Z.to_nat (u8val b) = Some (Reference.crc32 [b])
  /\ 0 <= Reference.crc32 [b] < 2 ^ 32.
Proof.
  split; [reflexivity|].
  pose proof (u8val_range b) as Hb.
  destruct (tableAt_reference (u8val b) Hb) as [Ht Hr].
  assert (Hcrc : Reference.crc32 [b] = tableAt makeCRCTable (u8val b)).
  { rewrite Ht. unfold Reference.crc32, Reference.feedByte. cbn [foldl].
    rewrite Z.lxor_0_l. reflexivity. }
  rewrite Hcrc. split; [|exact Hr].
  unfold tableAt.
  destruct (makeCRCTable !! Z.to_nat (u8val b)) as [t|] eqn:E; [reflexivity|].
  apply lookup_ge_None in E. change (length makeCRCTable) with 256%nat in E. lia.
Qed.

(** ** The size of a page *)

Lemma length_le_segments (size : nat) : (size < 255 * segmentsOf size)%nat.
Proof.
  unfold segmentsOf.
  pose proof (Nat.div_mod_eq size 255).
  pose proof (Nat.mod_upper_bound size 255 ltac:(lia)). lia.
Qed.

Lemma payload_le_segments (packets : list Uint8Array) :
  (sum_list (map length packets)
   <= 255 * sum_list (map segmentsOf (map length packets)))%nat.
Proof.
  induction packets as [|p ps IH]; [cbn; lia|].
  cbn [map]. change (sum_list (?x :: ?l)) with (x + sum_list l)%nat.
  pose proof (length_le_segments (length p)). lia.
Qed.

(** X11.  When every packet needs at most 255 lacing values, no page is
    longer than 65,307 bytes, the largest page of the container format
    (27 + 255 + 255 * 255), and none is shorter than its 27-byte header. *)
Theorem page_size_bound (rate chans random : Z) (calls : list call) :
  Forall fitsPage (passed calls) ->
  exists m,
    session rate chans random calls = Ok m
    /\ Forall (fun page => 27 <= Z.of_nat (length page) <= 65307) (pages m).
Proof.
  intros Hfit.
  destruct (session_pages rate chans random calls)
    as (m & j & Hs & _ & Hj & _ & Hp & _).
  assert (Hb : withinBudget j)
    by (rewrite Hj; apply withinBudget_run; [exact Hfit|apply withinBudget_initial]).
  exists m. split; [exact Hs|].
  apply Forall_forall. intros page Hin.
  apply list_elem_of_In, list_elem_of_lookup in Hin as [k Hk].
  rewrite Hp in Hk. apply render_lookup in Hk as (r & Hr & ->).
  destruct Hb as [_ Hb]. rewrite Forall_forall in Hb.
  assert (Hr255 : (segmentsIn (pr_packets r) <= 255)%nat).
  { apply Hb, list_elem_of_In. eapply list_elem_of_lookup_2, Hr. }
  unfold segmentsIn in Hr255. rewrite length_page.
  pose proof (payload_le_segments (map fst (pr_packets r))). lia.
Qed.

Lemma page_size_bound_witness :
  Forall fitsPage (passed (repeat (AddPacket (replicate 300 x01) 960) 200))
  /\ exists m,
       session 48000 2 7 (repeat (AddPacket (replicate 300 x01) 960) 200) = Ok m
       /\ Forall (fun page => 27 <= Z.of_nat (length page) <= 65307) (pages m).
Proof.
  assert (H : Forall fitsPage
                (passed (repeat (AddPacket (replicate 300 x01) 960) 200))).
  { apply Forall_forall. intros ps Hin. unfold passed in Hin.
    apply in_flat_map in Hin as (c & Hc & Hin). apply repeat_spec in Hc. subst c.
    destruct Hin as [<-|[]]. unfold fitsPage. vm_compute. lia. }
  split; [exact H|].
  exact (page_size_bound 48000 2 7 _ H).
Defined.

(** ** The stream built by the caller *)

Lemma addChunks_run (chunks : list (Uint8Array * Z)) : forall (m : OggOpusMuxer),
  addChunks chunks m
  = run (map (fun chunk => AddPacket (fst chunk) (snd chunk)) chunks) m.
Proof.
  induction chunks as [|[buffer samples] chunks IH]; intros m; [reflexivity|].
  cbn [addChunks map run step fst snd].
  destruct (addPacket buffer samples m); cbn [bind]; [apply IH|reflexivity].
Qed.

Lemma convert_session (rate chans random : Z) (chunks : list (Uint8Array * Z))
    (m : OggOpusMuxer) :
  session rate chans random (chunkCalls chunks) = Ok m ->
  convertAudioToOggFast rate chans random chunks = Ok (m, concat (pages m)).
Proof.
  unfold session, convertAudioToOggFast, chunkCalls.
  destruct (newMuxer rate chans random) as [m0|]; cbn [bind]; [|discriminate].
  rewrite run_app, addChunks_run.
  destruct (run _ m0) as [m1|]; cbn [bind run step]; [|discriminate].
  unfold getBlob. destruct (flushPage true m1) as [m2|]; cbn [bind]; [|discriminate].
  intros [= <-]. reflexivity.
Qed.

Lemma passed_chunkCalls (chunks : list (Uint8Array * Z)) :
  passed (chunkCalls chunks) = chunks.
Proof.
  unfold chunkCalls. rewrite passed_app. cbn [passed flat_map]. rewrite app_nil_r.
  induction chunks as [|[buffer samples] chunks IH]; [reflexivity|].
  cbn [map passed flat_map fst snd app]. unfold passed in IH. rewrite IH. reflexivity.
Qed.

(** Records of non-terminal pages stay non-terminal while packets are
    added. *)
Lemma emitted_adds (chunks : list (Uint8Array * Z)) : forall (j : journal),
  Forall (fun r => pr_isLast r = false) (emitted j) ->
  Forall (fun r => pr_isLast r = false)
    (emitted (runJournal
                (map (fun chunk => AddPacket (fst chunk) (snd chunk)) chunks) j)).
Proof.
  induction chunks as [|[buffer samples] chunks IH]; intros j Hj; [exact Hj|].
  cbn [map fst snd].
  change (runJournal (?c :: ?l) j) with (runJournal l (stepJournal c j)).
  apply IH. cbn [stepJournal]. unfold addJournal, flushJournal.
  destruct (255 <? _)%nat; cbn [emitted]; [|exact Hj].
  destruct (pending j); cbn [emitted]; [exact Hj|].
  apply Forall_app. split; [exact Hj|]. constructor; [reflexivity|constructor].
Qed.

Lemma emitted_chunkCalls (rate chans : Z) (chunks : list (Uint8Array * Z)) :
  exists rs packets,
    emitted (runJournal (chunkCalls chunks) (initialJournal rate chans))
    = rs ++ [mkPageRecord packets true]
    /\ Forall (fun r => pr_isLast r = false) rs
    /\ (2 <= length rs)%nat
    /\ pending (runJournal (chunkCalls chunks) (initialJournal rate chans)) = [].
Proof.
  unfold chunkCalls. rewrite runJournal_app.
  set (j := runJournal _ (initialJournal rate chans)).
  assert (Hrs : Forall (fun r => pr_isLast r = false) (emitted j)).
  { apply emitted_adds. repeat constructor. }
  destruct (emitted_run
              (map (fun chunk => AddPacket (fst chunk) (snd chunk)) chunks)
              (initialJournal rate chans)) as [rs' Hrs'].
  fold j in Hrs'.
  exists (emitted j), (pending j).
  change (runJournal [GetBlob] j) with (flushJournal true j).
  unfold flushJournal. split; [destruct (pending j); reflexivity|].
  split; [exact Hrs|]. split.
  - rewrite Hrs', length_app. cbn. lia.
  - destruct (pending j); reflexivity.
Qed.

(** X12.  The stream that [_convertAudioToOggFast] gets from its muxer,
    for any chunks the encoder delivers: it is the concatenation of the
    pages; nothing is left pending; the first page and no other has the
    beginning-of-stream flag, the last page and no other has the
    end-of-stream flag; when the sample counts are non-negative and sum to
    at most 2^53, the muxer's granule position and the granule position of
    the last page are their sum; and when every chunk needs at most 255
    lacing values, the packets that a reader takes out of the pages are the
    two header packets and the chunks, each one with its own bytes, in
    order. *)
Theorem stream_of_chunks (rate chans random : Z) (chunks : list (Uint8Array * Z)) :
  exists m blob,
    convertAudioToOggFast rate chans random chunks = Ok (m, blob)
    /\ blob = concat (pages m)
    /\ packetBuffer m = []
    /\ (3 <= length (pages m))%nat
    /\ (forall (k : nat) (page : Uint8Array),
          pages m !! k = Some page ->
          (flagBOS page = true <-> k = 0%nat)
          /\ (flagEOS page = true <-> S k = length (pages m)))
    /\ (Forall (fun chunk => 0 <= snd chunk) chunks ->
        samplesOf chunks <= exactRange ->
        granulePosition m = samplesOf chunks
        /\ (granuleOf <$> list.last (pages m)) = Some (samplesOf chunks))
    /\ (Forall fitsPage chunks ->
        concat (map packetsOf (pages m))
        = idHeaderBytes rate chans :: commentHeaderBytes :: map fst chunks).
Proof.
  destruct (session_pages rate chans random (chunkCalls chunks))
    as (m & j & Hs & _ & Hj & C & Hp & Hlen & _).
  destruct (emitted_chunkCalls rate chans chunks)
    as (rs & packets & Hemitted & Hrs & Hrs2 & Hpending).
  rewrite <- Hj in Hemitted, Hpending.
  assert (Hacc : accepted j = accepted (initialJournal rate chans) ++ chunks).
  { rewrite Hj, accepted_run, passed_chunkCalls. reflexivity. }
  exists m, (concat (pages m)).
  split; [apply convert_session, Hs|]. split; [reflexivity|].
  split; [rewrite (cons_buffer _ _ _ C), Hpending; reflexivity|].
  assert (Hn : length (pages m) = S (length rs)).
  { rewrite Hlen, Hemitted, length_app. cbn. lia. }
  assert (Hall : concat (map pr_packets (emitted j)) = accepted j).
  { unfold accepted. rewrite Hpending, app_nil_r. reflexivity. }
  split; [lia|]. split; [|split].
  - intros k page Hk. rewrite Hp in Hk.
    apply render_lookup in Hk as (r & Hr & ->).
    unfold flagBOS, flagEOS. rewrite !headerTypeOf_page.
    rewrite (proj1 (headerType_flags _ _)), (proj2 (headerType_flags _ _)).
    cbn [Nat.add]. split; [apply Nat.eqb_eq|].
    rewrite Hn, Hemitted in *.
    destruct (le_lt_dec (length rs) k) as [Hge|Hlt].
    + rewrite lookup_app_r in Hr by exact Hge.
      destruct (k - length rs)%nat as [|d] eqn:Hd; [|destruct d; discriminate Hr].
      injection Hr as <-. cbn [pr_isLast]. split; [intros _; lia|reflexivity].
    + rewrite lookup_app_l in Hr by exact Hlt.
      rewrite Forall_forall in Hrs.
      rewrite (Hrs r) by (apply list_elem_of_In; eapply list_elem_of_lookup_2, Hr).
      split; [discriminate|lia].
  - intros Hpos Hmax.
    rewrite <- (app_nil_r chunks) in Hpos, Hmax.
    destruct (granule_exact rate chans _ _ Hpos Hmax) as [Hexact Hb].
    rewrite <- Hacc in Hexact.
    split; [rewrite (cons_granule _ _ _ C); exact Hexact|].
    rewrite Hp, Hemitted, render_snoc, list.last_snoc. cbn [fmap option_fmap option_map].
    rewrite granuleOf_page. cbn [pr_packets].
    change (concat (map pr_packets rs) ++ packets)
      with (concat (map pr_packets rs) ++ pr_packets (mkPageRecord packets true)).
    rewrite <- (app_nil_r (pr_packets _)).
    change (pr_packets (mkPageRecord packets true) ++ [])
      with (concat (map pr_packets [mkPageRecord packets true])).
    rewrite <- concat_app, <- map_app, <- Hemitted, Hall, Hexact.
    f_equal. apply Z.mod_small. pose proof exactRange_field. lia.
  - intros Hfit.
    assert (Hb : withinBudget j).
    { rewrite Hj. apply withinBudget_run; [|apply withinBudget_initial].
      rewrite passed_chunkCalls. exact Hfit. }
    rewrite Hp, render_packets by apply Hb.
    rewrite Hall, Hacc, map_app. reflexivity.
Qed.

(** ** File names *)

Lemma split_nonempty (separator : N) (s : list N) : split separator s <> [].
Proof.
  destruct s as [|c s]; cbn [split]; [discriminate|].
  destruct (c =? separator)%N; [discriminate|].
  destruct (split separator s); discriminate.
Qed.

Lemma join_split (separator : N) (s : list N) :
  join [separator] (split separator s) = s.
Proof.
  induction s as [|c s IH]; [reflexivity|]. cbn [split].
  pose proof (split_nonempty separator s) as Hne.
  destruct (N.eqb_spec c separator) as [->|Hc].
  - destruct (split separator s) as [|p ps]; [congruence|].
    cbn [join app] in *. rewrite IH. reflexivity.
  - destruct (split separator s) as [|p ps]; [congruence|].
    destruct ps as [|q qs]; cbn [join app] in *; rewrite <- IH; reflexivity.
Qed.

Lemma split_parts (separator : N) (s : list N) :
  Forall (fun part => separator ∉ part) (split separator s).
Proof.
  induction s as [|c s IH]; cbn [split].
  - constructor; [apply not_elem_of_nil|constructor].
  - destruct (N.eqb_spec c separator) as [->|Hc].
    + constructor; [apply not_elem_of_nil|exact IH].
    + destruct (split separator s) as [|p ps].
      * constructor; [|constructor]. intros H. apply elem_of_cons in H as [H|H];
          [congruence|]. apply not_elem_of_nil in H. exact H.
      * inversion IH as [|? ? Hp Hps]. subst. constructor; [|exact Hps].
        intros H. apply elem_of_cons in H as [H|H]; [congruence|auto].
Qed.

Lemma split_one (separator : N) (s : list N) :
  length (split separator s) = 1%nat <-> separator ∉ s.
Proof.
  induction s as [|c s IH]; cbn [split].
  - split; [intros _; apply not_elem_of_nil|reflexivity].
  - pose proof (split_nonempty separator s) as Hne.
    destruct (N.eqb_spec c separator) as [->|Hc].
    + split.
      * cbn [length]. destruct (split separator s); [congruence|]. cbn. lia.
      * intros H. exfalso. apply H. left.
    + destruct (split separator s) as [|p ps]; [congruence|].
      cbn [length] in *. rewrite IH. split.
      * intros H H'. apply elem_of_cons in H' as [H'|H']; [congruence|auto].
      * intros H H'. apply H. right. exact H'.
Qed.

Lemma pop_snoc {A} (a : list A) (x : A) : pop (a ++ [x]) = (Some x, a).
Proof.
  unfold pop. rewrite list.last_snoc, length_app. cbn [length].
  replace (length a + 1 - 1)%nat with (length a) by lia.
  rewrite take_app_length. reflexivity.
Qed.

Lemma join_snoc (separator : list N) (a : list (list N)) (x : list N) :
  a <> [] -> join separator (a ++ [x]) = join separator a ++ separator ++ x.
Proof.
  induction a as [|p a IH]; [congruence|]. intros _.
  destruct a as [|q a]; [reflexivity|].
  change ((p :: q :: a) ++ [x]) with (p :: ((q :: a) ++ [x])).
  cbn [join app] in *. rewrite IH by discriminate.
  rewrite <- !app_assoc. reflexivity.
Qed.

Lemma lastIndexFrom_spec (c : N) (s : list N) : forall (i found : Z),
  ((c ∉ s) /\ lastIndexFrom c i s found = found)
  \/ (exists pre post, s = pre ++ c :: post /\ (c ∉ post)
                       /\ lastIndexFrom c i s found = i + Z.of_nat (length pre)).
Proof.
  induction s as [|x s IH]; intros i found; cbn [lastIndexFrom].
  - left. split; [apply not_elem_of_nil|reflexivity].
  - destruct (IH (i + 1) (if (x =? c)%N then i else found))
      as [[Hnot Hres]|(pre & post & -> & Hpost & Hres)].
    + destruct (N.eqb_spec x c) as [->|Hx].
      * right. exists [], s. split; [reflexivity|]. split; [exact Hnot|].
        rewrite Hres. cbn. lia.
      * left. split; [|exact Hres]. intros H.
        apply elem_of_cons in H as [H|H]; [congruence|auto].
    + right. exists (x :: pre), post. split; [reflexivity|]. split; [exact Hpost|].
      rewrite Hres. cbn [length]. lia.
Qed.

Lemma substring_prefix (n : Z) (s : list N) :
  n <= Z.of_nat (length s) -> substring 0 n s = take (Z.to_nat n) s.
Proof.
  intros Hn. unfold substring.
  rewrite (Z.min_l 0) by lia. rewrite (Z.max_l 0 0) by lia.
  rewrite (Z.min_l n) by lia.
  destruct (Z.le_gt_cases 0 n).
  - rewrite (Z.max_r 0 n), (Z.max_r 0 n), (Z.min_l 0 n) by lia.
    rewrite Z.sub_0_r. reflexivity.
  - rewrite (Z.max_l 0 n) by lia. rewrite Z.max_id, Z.min_id.
    replace (Z.to_nat n) with 0%nat by lia. reflexivity.
Qed.

Lemma convertName_parts (extension path : list N) :
  exists c,
    convertName extension path = Some c
    /\ nameWithoutExt c = substring 0 (lastIndexOf dot (fileName c)) (fileName c)
    /\ newFileName c = nameWithoutExt c ++ extension
    /\ (slash ∉ fileName c)
    /\ newPath c = folderPath c ++ [slash] ++ newFileName c
    /\ ((slash ∈ path) -> path = folderPath c ++ [slash] ++ fileName c)
    /\ ((slash ∉ path) -> path = fileName c /\ folderPath c = []).
Proof.
  unfold convertName.
  pose proof (join_split slash path) as Hjoin.
  pose proof (split_parts slash path) as Hparts.
  pose proof (split_one slash path) as Hone.
  destruct (exists_last (split_nonempty slash path)) as (parts & file & E).
  rewrite E in *. clear E.
  rewrite pop_snoc. eexists. split; [reflexivity|].
  cbn [fileName folderPath newPath newFileName nameWithoutExt].
  split; [reflexivity|]. split; [reflexivity|].
  apply Forall_app in Hparts as [_ Hfile]. apply Forall_inv in Hfile.
  split; [exact Hfile|]. split; [reflexivity|].
  rewrite length_app in Hone. cbn [length] in Hone.
  destruct parts as [|q qs].
  - cbn [app join] in *. split.
    + intros Hin. exfalso. apply Hone; [reflexivity|exact Hin].
    + intros _. split; [symmetry; exact Hjoin|reflexivity].
  - rewrite join_snoc in Hjoin by discriminate. split.
    + intros _. symmetry. exact Hjoin.
    + intros Hnot. apply Hone in Hnot. cbn [length] in Hnot. lia.
Qed.

(** X13.  The path computation never fails.  The file name is the part of
    the path after its last "/", and folder, "/" and file name make up the
    path again; a path without "/" is all file name, its folder is empty,
    and the path computed for the converted file then begins with a "/"
    that the original path did not have. *)
Theorem convertName_folder (extension path : list N) :
  exists c,
    convertName extension path = Some c
    /\ (slash ∉ fileName c)
    /\ newPath c = folderPath c ++ [slash] ++ newFileName c
    /\ ((slash ∈ path) -> path = folderPath c ++ [slash] ++ fileName c)
    /\ ((slash ∉ path) ->
        path = fileName c /\ folderPath c = []
        /\ newPath c = [slash] ++ newFileName c).
Proof.
  destruct (convertName_parts extension path)
    as (c & Hc & _ & _ & Hfile & Hnew & Hin & Hnot).
  exists c. split; [exact Hc|]. split; [exact Hfile|]. split; [exact Hnew|].
  split; [exact Hin|]. intros H. destruct (Hnot H) as [Hp Hf].
  split; [exact Hp|]. split; [exact Hf|]. rewrite Hnew, Hf. reflexivity.
Qed.

Lemma last_split_unique (c : N) (a : list N) : forall (a' b b' : list N),
  (c ∉ b) -> (c ∉ b') -> a ++ c :: b = a' ++ c :: b' -> a = a' /\ b = b'.
Proof.
  induction a as [|x a IH]; intros [|x' a'] b b' Hb Hb' H; cbn [app] in H.
  - injection H as ->. auto.
  - injection H as <- ->. exfalso. apply Hb. apply elem_of_app. right. left.
  - injection H as -> <-. exfalso. apply Hb'. apply elem_of_app. right. left.
  - injection H as -> H. apply IH in H as [-> ->]; auto.
Qed.

Lemma cut_at_last_dot (file : list N) :
  ((dot ∈ file) ->
   exists ext, file = substring 0 (lastIndexOf dot file) file ++ [dot] ++ ext
               /\ (dot ∉ ext))
  /\ ((dot ∉ file) -> substring 0 (lastIndexOf dot file) file = []).
Proof.
  unfold lastIndexOf.
  destruct (lastIndexFrom_spec dot file 0 (-1))
    as [[Hnot Hres]|(pre & post & Hfile & Hpost & Hres)]; rewrite Hres.
  - split; [intros H; contradiction|]. intros _.
    rewrite substring_prefix by lia. reflexivity.
  - rewrite substring_prefix by (rewrite Hfile, length_app; cbn [length]; lia).
    rewrite Z.add_0_l, Nat2Z.id. split.
    + intros _. exists post. rewrite Hfile at 2. rewrite take_app_length.
      split; [exact Hfile|exact Hpost].
    + intros H. exfalso. apply H. rewrite Hfile. apply elem_of_app. right. left.
Qed.

(** X14.  The new file name is the file name cut at its last "." with the
    new extension appended: only what follows the last "." is replaced.  A
    file name without "." is dropped altogether and the new name is the
    bare extension.  A file that already has the new extension keeps its
    name, and then, for a path with a folder, the new path is the old
    one. *)
Theorem convertName_extension (extension path : list N) :
  exists c,
    convertName extension path = Some c
    /\ newFileName c = nameWithoutExt c ++ extension
    /\ ((dot ∈ fileName c) ->
        exists ext, fileName c = nameWithoutExt c ++ [dot] ++ ext /\ (dot ∉ ext))
    /\ ((dot ∉ fileName c) -> nameWithoutExt c = [] /\ newFileName c = extension)
    /\ (forall stem ext : list N,
          fileName c = stem ++ [dot] ++ ext -> (dot ∉ ext) ->
          extension = [dot] ++ ext ->
          newFileName c = fileName c
          /\ ((slash ∈ path) -> newPath c = path)).
Proof.
  destruct (convertName_parts extension path)
    as (c & Hc & Hcut & Hname & _ & Hnew & Hin & _).
  destruct (cut_at_last_dot (fileName c)) as [Hdot Hnodot].
  rewrite <- Hcut in Hdot, Hnodot.
  exists c. split; [exact Hc|]. split; [exact Hname|]. split; [exact Hdot|].
  split.
  - intros H. rewrite Hname, (Hnodot H). auto.
  - intros stem ext Hfile Hext Hextension.
    assert (Hhas : dot ∈ fileName c).
    { rewrite Hfile. apply elem_of_app. right. left. }
    destruct (Hdot Hhas) as (ext' & Hfile' & Hext').
    rewrite Hfile in Hfile' at 1. cbn [app] in Hfile'.
    apply last_split_unique in Hfile' as [Hstem Hsame]; [|assumption..].
    assert (Hsamename : newFileName c = fileName c).
    { rewrite Hname, Hextension, Hfile, Hstem. reflexivity. }
    split; [exact Hsamename|].
    intros Hslash. rewrite Hnew, Hsamename. symmetry. apply Hin, Hslash.
Qed.
